(** * Routing of the Aragon client: locators, paths and preferences

    A verification of the routing module of the client
    ([parsePath], [getAppPath], [parsePreferences]).

    JavaScript strings are sequences of UTF-16 code units; they are
    modelled as [list N].  The string methods the module uses ([split],
    [replace], [endsWith], [indexOf], [substr]) and the two URI built-ins
    ([encodeURIComponent], [decodeURIComponent]) are written out after
    ECMA-262.  The routing functions themselves follow the source line by
    line; the side effects ([history.replace], [console.log]) and the
    exceptions run in a small state-and-error monad. *)

From Stdlib Require Import NArith ZArith Lia Strings.String Strings.Ascii.
From stdpp Require Import base option list gmap.

Local Open Scope N_scope.

(** ** JavaScript strings *)

Abbreviation str := (list N).

(** A Rocq string literal read as a JavaScript string. *)
Definition js (s : string) : str := map N_of_ascii (list_ascii_of_string s).
Arguments js s%_string.

Module JS.

(** *** Exceptions and completions *)

(** The errors that the routing code can throw: the [URIError] of the
    URI functions, and the [TypeError] of a method call on [undefined]. *)
Inductive Exn := URIError | TypeError.

Inductive result (A : Type) : Type :=
| Ok (a : A)
| Throw (e : Exn).
Arguments Ok {A} a.
Arguments Throw {A} e.

#[global] Instance result_fmap : FMap result := fun A B f r =>
  match r with
  | Ok a => Ok (f a)
  | Throw e => Throw e
  end.

(** *** String methods *)

(** [s.startsWith(p)] *)
Fixpoint startsWith (p s : str) : bool :=
  match p, s with
  | [], _ => true
  | _ :: _, [] => false
  | a :: p', b :: s' => (a =? b) && startsWith p' s'
  end.

(** [s.endsWith(p)] *)
Definition endsWith (p s : str) : bool :=
  startsWith (rev p) (rev s).

(** The first occurrence of [sep] in [s]: the text before it and the text
    after it (what ECMA-262 calls StringIndexOf, with both sides kept). *)
Fixpoint cut (sep s : str) : option (str * str) :=
  if startsWith sep s then Some ([], drop (length sep) s)
  else match s with
       | [] => None
       | c :: s' =>
           match cut sep s' with
           | Some (a, b) => Some (c :: a, b)
           | None => None
           end
       end.

(** [s.indexOf(needle)], [-1] when there is no occurrence. *)
Definition indexOf (needle s : str) : Z :=
  match cut needle s with
  | Some (a, _) => Z.of_nat (length a)
  | None => (-1)%Z
  end.

(** [s.substr(0, len)]: a negative length gives the empty string. *)
Definition substr0 (s : str) (len : Z) : str :=
  take (Z.to_nat len) s.

(** [s.replace(pat, rep)] with a string pattern: the first occurrence only. *)
Definition replace (pat rep s : str) : str :=
  match cut pat s with
  | Some (a, b) => a ++ rep ++ b
  | None => s
  end.

(** [s.split(sep)]: cut at each occurrence in turn, left to right.  The
    loop runs at most once per code unit of [s]. *)
Fixpoint split_loop (fuel : nat) (sep s : str) : list str :=
  match fuel with
  | O => [s]
  | S fuel' =>
      match cut sep s with
      | Some (a, b) => a :: split_loop fuel' sep b
      | None => [s]
      end
  end.

Definition split (sep s : str) : list str :=
  match sep with
  | [] => map (fun c => [c]) s
  | _ :: _ => split_loop (S (length s)) sep s
  end.

(** *** UTF-16 *)

Definition isCodeUnit (c : N) : bool := c <? 0x10000.
Definition isLeadingSurrogate (c : N) : bool := (0xD800 <=? c) && (c <=? 0xDBFF).
Definition isTrailingSurrogate (c : N) : bool := (0xDC00 <=? c) && (c <=? 0xDFFF).

(** UTF16SurrogatePairToCodePoint *)
Definition surrogatePairToCodePoint (lead trail : N) : N :=
  (lead - 0xD800) * 0x400 + (trail - 0xDC00) + 0x10000.

(** UTF16EncodeCodePoint *)
Definition utf16EncodeCodePoint (cp : N) : str :=
  if cp <? 0x10000 then [cp]
  else [0xD800 + (cp - 0x10000) / 0x400; 0xDC00 + (cp - 0x10000) mod 0x400].

(** [s.isWellFormed()]: no unpaired surrogate. *)
Fixpoint isWellFormed (s : str) : bool :=
  match s with
  | [] => true
  | c :: r =>
      if isLeadingSurrogate c then
        match r with
        | d :: r' => isTrailingSurrogate d && isWellFormed r'
        | [] => false
        end
      else negb (isTrailingSurrogate c) && isWellFormed r
  end.

(** Every element is a 16-bit code unit. *)
Definition isString (s : str) : bool := forallb isCodeUnit s.

(** *** UTF-8 and percent escapes *)

(** The UTF-8 octets of a code point. *)
Definition utf8Encode (cp : N) : list N :=
  if cp <? 0x80 then [cp]
  else if cp <? 0x800 then [0xC0 + cp / 0x40; 0x80 + cp mod 0x40]
  else if cp <? 0x10000 then
    [0xE0 + cp / 0x1000; 0x80 + (cp / 0x40) mod 0x40; 0x80 + cp mod 0x40]
  else
    [0xF0 + cp / 0x40000; 0x80 + (cp / 0x1000) mod 0x40;
     0x80 + (cp / 0x40) mod 0x40; 0x80 + cp mod 0x40].

Definition isContinuation (b : N) : bool := (0x80 <=? b) && (b <=? 0xBF).

(** The code point of a two-, three- or four-octet sequence, when the
    sequence is well-formed UTF-8: continuation octets in range, no
    overlong form, no surrogate, nothing above U+10FFFF. *)
Definition utf8Decode2 (b1 b2 : N) : option N :=
  let cp := (b1 - 0xC0) * 0x40 + (b2 - 0x80) in
  if isContinuation b2 && (0x80 <=? cp) then Some cp else None.

Definition utf8Decode3 (b1 b2 b3 : N) : option N :=
  let cp := (b1 - 0xE0) * 0x1000 + (b2 - 0x80) * 0x40 + (b3 - 0x80) in
  if isContinuation b2 && isContinuation b3 && (0x800 <=? cp)
     && negb ((0xD800 <=? cp) && (cp <=? 0xDFFF))
  then Some cp else None.

Definition utf8Decode4 (b1 b2 b3 b4 : N) : option N :=
  let cp := (b1 - 0xF0) * 0x40000 + (b2 - 0x80) * 0x1000
            + (b3 - 0x80) * 0x40 + (b4 - 0x80) in
  if isContinuation b2 && isContinuation b3 && isContinuation b4
     && (0x10000 <=? cp) && (cp <=? 0x10FFFF)
  then Some cp else None.

(** An upper-case hexadecimal digit. *)
Definition hexDigit (x : N) : N :=
  if x <? 10 then 0x30 + x else 0x37 + x.

(** The value of a hexadecimal digit of either case. *)
Definition hexValue (c : N) : option N :=
  if (0x30 <=? c) && (c <=? 0x39) then Some (c - 0x30)
  else if (0x41 <=? c) && (c <=? 0x46) then Some (c - 0x37)
  else if (0x61 <=? c) && (c <=? 0x66) then Some (c - 0x57)
  else None.

(** ParseHexOctet *)
Definition hexOctet (h1 h2 : N) : option N :=
  match hexValue h1, hexValue h2 with
  | Some a, Some b => Some (16 * a + b)
  | _, _ => None
  end.

(** The escape ["%XX"] of one octet. *)
Definition pctOctet (b : N) : str :=
  [0x25; hexDigit (b / 16); hexDigit (b mod 16)].

Definition pctEncode (octets : list N) : str :=
  concat (map pctOctet octets).

(** An escape read back: ["%"] and two hexadecimal digits. *)
Definition escapeOctet (p h1 h2 : N) : option N :=
  if p =? 0x25 then hexOctet h1 h2 else None.

(** uriUnescaped: the alphanumerics and [- _ . ! ~ * ' ( )]. *)
Definition uriUnescaped (c : N) : bool :=
  ((0x41 <=? c) && (c <=? 0x5A)) || ((0x61 <=? c) && (c <=? 0x7A))
  || ((0x30 <=? c) && (c <=? 0x39))
  || (c =? 0x2D) || (c =? 0x5F) || (c =? 0x2E) || (c =? 0x21)
  || (c =? 0x7E) || (c =? 0x2A) || (c =? 0x27) || (c =? 0x28) || (c =? 0x29).

(** [encodeURIComponent(s)] (the abstract operation Encode with the
    unescaped set above): an unpaired surrogate throws a URIError. *)
Fixpoint encodeURIComponent (s : str) : result str :=
  match s with
  | [] => Ok []
  | c :: r =>
      if uriUnescaped c then cons c <$> encodeURIComponent r
      else if isLeadingSurrogate c then
        match r with
        | d :: r' =>
            if isTrailingSurrogate d then
              app (pctEncode (utf8Encode (surrogatePairToCodePoint c d)))
                <$> encodeURIComponent r'
            else Throw URIError
        | [] => Throw URIError
        end
      else if isTrailingSurrogate c then Throw URIError
      else app (pctEncode (utf8Encode c)) <$> encodeURIComponent r
  end.

(** [decodeURIComponent(s)] (the abstract operation Decode with an empty
    preserved set): a truncated or non-hexadecimal escape, or octets that
    are not well-formed UTF-8, throw a URIError. *)
Fixpoint decodeURIComponent (s : str) : result str :=
  match s with
  | [] => Ok []
  | c :: r =>
      if negb (c =? 0x25) then cons c <$> decodeURIComponent r
      else
        match r with
        | h1 :: h2 :: r1 =>
            match hexOctet h1 h2 with
            | None => Throw URIError
            | Some b1 =>
                if b1 <? 0x80 then cons b1 <$> decodeURIComponent r1
                else if b1 <? 0xC0 then Throw URIError
                else if b1 <? 0xE0 then
                  match r1 with
                  | p2 :: x1 :: x2 :: r2 =>
                      match escapeOctet p2 x1 x2 with
                      | Some b2 =>
                          match utf8Decode2 b1 b2 with
                          | Some cp =>
                              app (utf16EncodeCodePoint cp)
                                <$> decodeURIComponent r2
                          | None => Throw URIError
                          end
                      | None => Throw URIError
                      end
                  | _ => Throw URIError
                  end
                else if b1 <? 0xF0 then
                  match r1 with
                  | p2 :: x1 :: x2 :: p3 :: y1 :: y2 :: r3 =>
                      match escapeOctet p2 x1 x2, escapeOctet p3 y1 y2 with
                      | Some b2, Some b3 =>
                          match utf8Decode3 b1 b2 b3 with
                          | Some cp =>
                              app (utf16EncodeCodePoint cp)
                                <$> decodeURIComponent r3
                          | None => Throw URIError
                          end
                      | _, _ => Throw URIError
                      end
                  | _ => Throw URIError
                  end
                else if b1 <? 0xF8 then
                  match r1 with
                  | p2 :: x1 :: x2 :: p3 :: y1 :: y2 :: p4 :: z1 :: z2 :: r4 =>
                      match escapeOctet p2 x1 x2, escapeOctet p3 y1 y2,
                            escapeOctet p4 z1 z2 with
                      | Some b2, Some b3, Some b4 =>
                          match utf8Decode4 b1 b2 b3 b4 with
                          | Some cp =>
                              app (utf16EncodeCodePoint cp)
                                <$> decodeURIComponent r4
                          | None => Throw URIError
                          end
                      | _, _, _ => Throw URIError
                      end
                  | _ => Throw URIError
                  end
                else Throw URIError
            end
        | _ => Throw URIError
        end
  end.

End JS.

(** ** Effects: the navigation handle and the console *)

(** The argument of [history.replace]: [{ pathname, search, state: { alreadyParsed } }]. *)
Record ReplaceArgs := mkReplace {
  r_pathname : str;
  r_search : str;
  r_alreadyParsed : bool;
}.

(** What a call can change: the replacements requested of the browser
    history, and the lines written to the console, oldest first. *)
Record World := mkWorld {
  replaced : list ReplaceArgs;
  console : list str;
}.

(** A computation reads and changes the world and either returns or throws. *)
Definition M (A : Type) : Type := World -> JS.result A * World.

#[global] Instance M_ret : MRet M := fun A (a : A) w => (JS.Ok a, w).

#[global] Instance M_bind : MBind M := fun A B (f : A -> M B) (m : M A) w =>
  match m w with
  | (JS.Ok a, w') => f a w'
  | (JS.Throw e, w') => (JS.Throw e, w')
  end.

(** A pure completion, run as a computation. *)
Definition lift {A} (r : JS.result A) : M A := fun w => (r, w).

(** [try { body } catch (err) { handler }] *)
Definition try_catch {A} (body : M A) (handler : JS.Exn -> M A) : M A := fun w =>
  match body w with
  | (JS.Ok a, w') => (JS.Ok a, w')
  | (JS.Throw e, w') => handler e w'
  end.

(** [console.log(line)] *)
Definition console_log (line : str) : M unit := fun w =>
  (JS.Ok tt, mkWorld (replaced w) (console w ++ [line])).

(** The navigation handle passed to [parsePath]: an object with a
    [replace] method. *)
Record History := mkHistory {
  history_replace : ReplaceArgs -> M unit;
}.

(** The handle of the browser: [replace] records the request. *)
Definition browserHistory : History :=
  mkHistory (fun args w => (JS.Ok tt, mkWorld (replaced w ++ [args]) (console w))).

(** ** The data model *)

Inductive AppMode := APP_MODE_START | APP_MODE_ORG | APP_MODE_SETUP.

(** The preferences: [path] is [None] for [null]; [params] is the [Map]. *)
Record Preferences := mkPreferences {
  pref_path : option str;
  pref_params : gmap str str;
}.

(** A locator is one of three object shapes, told apart by [mode].
    [action] is [None] for [undefined]; [step] and [params] are [None] for
    [null]. *)
Inductive Locator :=
| StartLocator (path : str) (action : option str)
| SetupLocator (path : str) (step : option str) (parts : list str)
| OrgLocator (path dao instanceId : str) (params : option str)
    (parts : list str) (preferences : Preferences).

Definition mode (l : Locator) : AppMode :=
  match l with
  | StartLocator _ _ => APP_MODE_START
  | SetupLocator _ _ _ => APP_MODE_SETUP
  | OrgLocator _ _ _ _ _ _ => APP_MODE_ORG
  end.

Definition loc_path (l : Locator) : str :=
  match l with
  | StartLocator p _ | SetupLocator p _ _ | OrgLocator p _ _ _ _ _ => p
  end.

Definition loc_dao (l : Locator) : option str :=
  match l with OrgLocator _ d _ _ _ _ => Some d | _ => None end.

Definition loc_instanceId (l : Locator) : option str :=
  match l with OrgLocator _ _ i _ _ _ => Some i | _ => None end.

Definition loc_params (l : Locator) : option str :=
  match l with OrgLocator _ _ _ p _ _ => p | _ => None end.

Definition loc_parts (l : Locator) : list str :=
  match l with
  | OrgLocator _ _ _ _ ps _ | SetupLocator _ _ ps => ps
  | StartLocator _ _ => []
  end.

Definition loc_preferences (l : Locator) : option Preferences :=
  match l with OrgLocator _ _ _ _ _ pr => Some pr | _ => None end.

(** An entry of the static application registry; only [route] is read. *)
Record StaticApp := mkStaticApp {
  route : str;
}.

(** The argument of [getAppPath]: [dao] is [None] when the property is
    missing, as in the default argument [{}]; [instanceId] is [None] for
    [undefined] (the default then applies), [params] is [None] for [null]
    or [undefined]. *)
Record AppPathArgs := mkAppPathArgs {
  arg_dao : option str;
  arg_instanceId : option str;
  arg_params : option str;
}.

(** ** The routing module *)

(** JavaScript truthiness of a value that is a string, [null] or
    [undefined]: only a non-empty string is truthy. *)
Definition truthy (v : option str) : bool :=
  match v with
  | Some (_ :: _) => true
  | _ => false
  end.

(** [v === s] for such a value and a string. *)
Definition strictEq (v : option str) (s : str) : bool :=
  bool_decide (v = Some s).

Definition ARAGONID_ENS_DOMAIN : str := js "aragonid.eth".

Definition GLOBAL_PREFERENCES_QUERY_PARAM : str := js "?preferences=/".
Definition GLOBAL_PREFERENCES_SHARE_LINK_QUERY_VAR : str := js "&labels=".

(** The line logged when the [p] parameter does not decode. *)
Definition PARAMS_NOT_VALID : str :=
  js "The params (" ++ [0x201C] ++ js "p" ++ [0x201D]
    ++ js ") URL parameter is not valid.".

Definition parsePreferences (search : str) : Preferences :=
  (* const [, raw = ''] = search && search.split(GLOBAL_PREFERENCES_QUERY_PARAM) *)
  let raw :=
    match search with
    | [] => []
    | _ :: _ => default [] (JS.split GLOBAL_PREFERENCES_QUERY_PARAM search !! 1%nat)
    end in
  (* const [path = null, labels = null] = raw.split(...) *)
  let pieces := JS.split GLOBAL_PREFERENCES_SHARE_LINK_QUERY_VAR raw in
  let path := pieces !! 0%nat in
  let labels := pieces !! 1%nat in
  let params : gmap str str :=
    if truthy labels
    then <[GLOBAL_PREFERENCES_SHARE_LINK_QUERY_VAR := default [] labels]> ∅
    else ∅ in
  mkPreferences path params.

Section Routing.

(** The collaborators imported from [./web3-utils] and [./static-apps]. *)
Variable isAddress : str -> bool.
Variable isValidEnsName : str -> bool.
Variable staticApps : gmap str StaticApp.

(** Parse a path and a search query and return a locator.  ([search] is
    a string here: the default of the source, the empty string, stands
    for a missing argument.) *)
Definition parsePath (history : History) (pathname search : str) : M Locator :=
  let path := pathname ++ search in
  let parts := tail (JS.split (js "/") pathname) in
  (* Start *)
  if negb (truthy (parts !! 0%nat)) || strictEq (parts !! 0%nat) (js "open")
     || strictEq (parts !! 0%nat) (js "create")
  then mret (StartLocator path (parts !! 0%nat))
  (* Setup *)
  else if strictEq (parts !! 0%nat) (js "setup")
  then mret (SetupLocator path (parts !! 1%nat) (drop 2 parts))
  else
    let dao := default [] (parts !! 0%nat) in
    let validAddress := isAddress dao in
    let validDomain := isValidEnsName dao in
    (* Assume .aragonid.eth if not given a valid address or a valid ENS domain *)
    dao ←
      (if negb validAddress && negb validDomain
       then mret (dao ++ js "." ++ ARAGONID_ENS_DOMAIN)
       else if validDomain && JS.endsWith ARAGONID_ENS_DOMAIN dao
       then
         (* Replace URL with non-aragonid.eth version *)
         history_replace history
           (mkReplace (JS.replace (js "." ++ ARAGONID_ENS_DOMAIN) [] pathname)
              search true);;
         mret dao
       else mret dao);
    (* Organization *)
    let rawParams :=
      match search with
      | [] => Some []
      | _ :: _ => JS.split (js "?p=") search !! 1%nat
      end in
    params ←
      (if truthy rawParams
       then
         try_catch
           (p ← lift (JS.decodeURIComponent (default [] rawParams)); mret (Some p))
           (fun err => console_log PARAMS_NOT_VALID;; mret None)
       else mret None);
    let instanceId := parts !! 1%nat in
    let appParts := drop 2 parts in
    mret (OrgLocator path dao
            (if truthy instanceId then default [] instanceId else js "home")
            params appParts (parsePreferences search)).

(** Return a path string for an app instance.  Without a [dao] the
    first thing evaluated, [fullDao.indexOf], is a method call on
    [undefined]. *)
Definition getAppPath (args : AppPathArgs) : JS.result str :=
  let instanceId := default (js "home") (arg_instanceId args) in
  let params := arg_params args in
  match arg_dao args with
  | None => JS.Throw JS.TypeError
  | Some fullDao =>
      let dao :=
        if (-1 <? JS.indexOf ARAGONID_ENS_DOMAIN fullDao)%Z
        then JS.substr0 fullDao (JS.indexOf ARAGONID_ENS_DOMAIN fullDao - 1)
        else fullDao in
      match
        (if truthy params
         then app (js "?p=") <$> JS.encodeURIComponent (default [] params)
         else JS.Ok [])
      with
      | JS.Throw e => JS.Throw e
      | JS.Ok paramsPart =>
          match staticApps !! instanceId with
          | Some app => JS.Ok (js "/" ++ dao ++ route app ++ paramsPart)
          | None => JS.Ok (js "/" ++ dao ++ js "/" ++ instanceId ++ paramsPart)
          end
      end
  end.

End Routing.

(** ** The location of a path

    A path handed to the navigation layer comes back to the parser as a
    location, the way the browser and the history library read a URL:
    the fragment starts at the first [#], the search at the first [?]
    before it, and a search of a lone [?] counts as empty. *)
Definition cutAt (c : N) (s : str) : str * str :=
  match JS.cut [c] s with
  | Some (a, b) => (a, c :: b)
  | None => (s, [])
  end.

Definition locationOf (path : str) : str * str :=
  let beforeHash := fst (cutAt 0x23 path) in
  let '(pathname, search) := cutAt 0x3F beforeHash in
  (pathname, if bool_decide (search = js "?") then [] else search).

(** ** The vocabulary of the statements *)

Import JS.

(** [s] has no code unit [c]. *)
Definition lacks (c : N) (s : str) : bool := forallb (fun x => negb (x =? c)) s.

(** [s.includes(needle)] *)
Definition includes (needle s : str) : bool :=
  match cut needle s with Some _ => true | None => false end.

(** [s] has no slash. *)
Definition slashFree (s : str) : bool := lacks 0x2F s.

(** A segment can sit in a path: no slash, and none of the two
    delimiters that end the pathname of a location. *)
Definition pathSegment (s : str) : bool :=
  lacks 0x2F s && lacks 0x3F s && lacks 0x23 s.

(** A path put together from segments: [/s1/s2/...]. *)
Definition joinPath (segs : list str) : str :=
  concat (map (app (js "/")) segs).

(** The segments of a pathname: what follows each slash. *)
Definition segments (pathname : str) : list str :=
  tail (split (js "/") pathname).

(** The text after the first occurrence of a marker: everything up to
    the end of the string. *)
Definition textAfterMarker (marker s : str) : option str :=
  match cut marker s with
  | Some (_, after) => Some after
  | None => None
  end.

(** The text after the first occurrence of a marker, up to the next
    occurrence of the marker or, when there is none, the end. *)
Definition fieldAfterMarker (marker s : str) : option str :=
  match textAfterMarker marker s with
  | Some after =>
      match cut marker after with
      | Some (field, _) => Some field
      | None => Some after
      end
  | None => None
  end.

(** [s] without the suffix it ends with. *)
Definition dropSuffix (suffix s : str) : str :=
  if endsWith suffix s then take (length s - length suffix) s else s.

(** What [encodeURIComponent] writes: unescaped code units and ["%"]. *)
Definition uriSafe (c : N) : bool := uriUnescaped c || (c =? 0x25).

(** The first segments that [parsePath] takes for the start and setup
    screens. *)
Definition reservedSegment (seg : str) : bool :=
  bool_decide (seg ∈ [js ""; js "open"; js "create"; js "setup"]).

(** The text of the [p] parameter as [parsePath] extracts it. *)
Definition rawParamsOf (search : str) : option str :=
  match search with
  | [] => Some []
  | _ :: _ => split (js "?p=") search !! 1%nat
  end.

(** ** The organization branch, step by step

    The statements of [parsePath] that follow the start and setup cases,
    and what each of them computes. *)

Section OrganizationBranch.

Variable isAddress : str -> bool.
Variable isValidEnsName : str -> bool.

(** The statements of [parsePath] after the start and setup cases, for the
    segments [dao :: rest] of the path. *)
Definition parseOrganization (history : History) (pathname search : str)
    (dao : str) (rest : list str) : M Locator :=
  dao' ←
    (if negb (isAddress dao) && negb (isValidEnsName dao)
     then mret (dao ++ js "." ++ ARAGONID_ENS_DOMAIN)
     else if isValidEnsName dao && endsWith ARAGONID_ENS_DOMAIN dao
     then
       history_replace history
         (mkReplace (replace (js "." ++ ARAGONID_ENS_DOMAIN) [] pathname)
            search true);;
       mret dao
     else mret dao);
  params ←
    (if truthy (rawParamsOf search)
     then
       try_catch
         (p ← lift (decodeURIComponent (default [] (rawParamsOf search)));
          mret (Some p))
         (fun err => console_log PARAMS_NOT_VALID;; mret None)
     else mret None);
  mret (OrgLocator (pathname ++ search) dao'
          (if truthy (rest !! 0%nat) then default [] (rest !! 0%nat) else js "home")
          params (drop 1 rest) (parsePreferences search)).

(** The [p] parameter: decoded, or [null] with a line on the console. *)
Definition paramsOf (search : str) : option str :=
  if truthy (rawParamsOf search) then
    match decodeURIComponent (default [] (rawParamsOf search)) with
    | Ok p => Some p
    | Throw _ => None
    end
  else None.

(** The lines that decoding the [p] parameter writes to the console. *)
Definition logOf (search : str) : list str :=
  if truthy (rawParamsOf search) then
    match decodeURIComponent (default [] (rawParamsOf search)) with
    | Ok p => []
    | Throw _ => [PARAMS_NOT_VALID]
    end
  else [].

(** The name that the locator gets for the first segment. *)
Definition daoOf (dao : str) : str :=
  if negb (isAddress dao) && negb (isValidEnsName dao)
  then dao ++ js "." ++ ARAGONID_ENS_DOMAIN else dao.

(** The replacements asked of the navigation handle. *)
Definition redirectOf (pathname search dao : str) : list ReplaceArgs :=
  if negb (isAddress dao) && negb (isValidEnsName dao) then []
  else if isValidEnsName dao && endsWith ARAGONID_ENS_DOMAIN dao
  then [mkReplace (replace (js "." ++ ARAGONID_ENS_DOMAIN) [] pathname) search true]
  else [].

End OrganizationBranch.

(** ** The validators and a registry for the examples *)

Module Web3Utils.

(** Modelled from the spec: the address validator of [./web3-utils],
    which is not among the sources: a syntactic check for an account
    address, a fixed-length hexadecimal string with a recognized prefix
    (["0x"] and forty digits; the checksum of mixed-case addresses is
    left out). *)
Definition isAddress (s : str) : bool :=
  startsWith (js "0x") s && bool_decide (length s = 42%nat)
  && forallb (fun c => bool_decide (is_Some (hexValue c))) (drop 2 s).

(** A label of a domain: letters, digits, [_] and [-], at least one. *)
Definition isLabel (s : str) : bool :=
  bool_decide (s <> [])
  && forallb (fun c => ((0x41 <=? c) && (c <=? 0x5A)) || ((0x61 <=? c) && (c <=? 0x7A))
                       || ((0x30 <=? c) && (c <=? 0x39)) || (c =? 0x5F) || (c =? 0x2D)) s.

(** Modelled from the spec: the domain validator of [./web3-utils],
    which is not among the sources: a syntactic check for a name-service
    name, one or more labels and the top-level [eth], joined by dots. *)
Definition isValidEnsName (s : str) : bool :=
  match rev (split (js ".") s) with
  | tld :: ((_ :: _) as labels) =>
      bool_decide (tld = js "eth") && forallb isLabel labels
  | _ => false
  end.

End Web3Utils.

(** A small registry of the right type: the home screen and the
    permissions screen have routes of their own. *)
Definition exampleStaticApps : gmap str StaticApp :=
  <[js "home" := mkStaticApp (js "/")]>
    (<[js "permissions" := mkStaticApp (js "/permissions")]> ∅).

(** An address-like name. *)
Definition exampleAddress : str :=
  js "0x00000000000000000000000000000000cafe1a77".

(** A world in which nothing has happened yet. *)
Definition quietWorld : World := mkWorld [] [].

(** ** The redemptions screen of the onboarding

    The state and the event handlers of [RedemptionsScreen].  The
    component keeps two pieces of state, the list of selected tokens and
    the form error; each handler is a step from one state to the next.
    [isAddress] and [addressesEqual] come from the UI library and are
    parameters. *)

Module JSArray.

(** [l.some((x, i) => f(x, i))], [l.filter(...)] and [l.map(...)] with
    callbacks that look at the index. *)
Fixpoint some_from {A} (f : A -> nat -> bool) (i : nat) (l : list A) : bool :=
  match l with
  | [] => false
  | x :: r => f x i || some_from f (S i) r
  end.

Fixpoint filter_from {A} (f : A -> nat -> bool) (i : nat) (l : list A) : list A :=
  match l with
  | [] => []
  | x :: r => if f x i then x :: filter_from f (S i) r else filter_from f (S i) r
  end.

Fixpoint map_from {A B} (f : A -> nat -> B) (i : nat) (l : list A) : list B :=
  match l with
  | [] => []
  | x :: r => f x i :: map_from f (S i) r
  end.

Definition some {A} (f : A -> nat -> bool) (l : list A) : bool := some_from f 0 l.
Definition filter {A} (f : A -> nat -> bool) (l : list A) : list A := filter_from f 0 l.
Definition map {A B} (f : A -> nat -> B) (l : list A) : list B := map_from f 0 l.

End JSArray.

Module Redemptions.

(** A token, with the fields that the screen reads; [symbol] is [None]
    when the property is missing. *)
Record Token := mkToken {
  address : str;
  symbol : option str;
}.

(** One row of the selector. *)
Record Entry := mkEntry {
  token : Token;
  selectedIndex : Z;
}.

Definition EMPTY_TOKEN : Entry := mkEntry (mkToken (js "") None) (-1).

Definition NO_TOKEN_SELECTED : str :=
  js "You need to select at least one redeemable token.".
Definition NOT_VALID_ADDRESSES : str :=
  js "One or more selected tokens are not valid addresses.".
Definition ALREADY_SELECTED : str := js "Token already selected".

(** The values found in the data of the wizard: [undefined], numbers,
    arrays of rows, and objects (properties in order, the first binding
    of a key being the property). *)
#[local] Set Warnings "-register-all".
Inductive Val :=
| VUndefined
| VNumber (n : Z)
| VTokens (rows : list Entry)
| VObject (props : list (str * Val)).

Fixpoint getProp (props : list (str * Val)) (key : str) : Val :=
  match props with
  | [] => VUndefined
  | (k, v) :: rest => if bool_decide (k = key) then v else getProp rest key
  end.

(** [{ ...props, [key]: v }]: the property is overwritten where it
    stands, or added at the end. *)
Fixpoint setProp (props : list (str * Val)) (key : str) (v : Val)
    : list (str * Val) :=
  match props with
  | [] => [(key, v)]
  | (k, x) :: rest =>
      if bool_decide (k = key) then (k, v) :: rest
      else (k, x) :: setProp rest key v
  end.

(** Truthiness of such a value. *)
Definition valTruthy (v : Val) : bool :=
  match v with
  | VUndefined => false
  | VNumber n => negb (n =? 0)%Z
  | VTokens _ | VObject _ => true
  end.

(** [v.redeemableTokens] *)
Definition redeemableTokensOf (v : Val) : Val :=
  match v with
  | VObject props => getProp props (js "redeemableTokens")
  | _ => VUndefined
  end.

(** [v.length] *)
Definition lengthOf (v : Val) : Val :=
  match v with
  | VTokens rows => VNumber (Z.of_nat (length rows))
  | VObject props => getProp props (js "length")
  | _ => VUndefined
  end.

(** [v > 0]: only a positive number is. *)
Definition positive (v : Val) : bool :=
  match v with
  | VNumber n => (0 <? n)%Z
  | _ => false
  end.

(** The state of the component. *)
Record State := mkState {
  redeemableTokens : list Entry;
  formError : option str;
}.

(** What [handleSubmit] does besides setting state. *)
Inductive Effect :=
| PreventDefault
| Next (payload : Val).

(** The argument of [handleTokenUpdated]. *)
Record Update := mkUpdate {
  newToken : Token;
  newSelectedIndex : Z;
  componentIndex : Z;
}.

Section Screen.

Variable isAddress : str -> bool.
Variable addressesEqual : str -> str -> bool.

Definition validationError (redeemableTokens : list Entry) : option str :=
  if (length redeemableTokens =? 0)%nat then Some NO_TOKEN_SELECTED
  else
    let notValidAddress :=
      existsb (fun e => negb (isAddress (address (token e)))) redeemableTokens in
    if notValidAddress then Some NOT_VALID_ADDRESSES
    else None.

(** [(dataKey ? data[dataKey] : data) || {}] *)
Definition screenDataOf (dataKey : str) (data : list (str * Val)) : Val :=
  let found := if truthy (Some dataKey) then getProp data dataKey else VObject data in
  if valTruthy found then found else VObject [].

(** The initial value of the [redeemableTokens] state. *)
Definition initialTokens (dataKey : str) (data : list (str * Val)) : Val :=
  let screenData := screenDataOf dataKey data in
  if valTruthy (redeemableTokensOf screenData)
     && positive (lengthOf (redeemableTokensOf screenData))
  then redeemableTokensOf screenData
  else VTokens [EMPTY_TOKEN].

Definition handleTokenAdded (st : State) : State :=
  mkState (redeemableTokens st ++ [EMPTY_TOKEN]) None.

Definition handleTokenRemoved (index : Z) (st : State) : State :=
  mkState
    (JSArray.filter (fun _ i => negb (Z.of_nat i =? index)%Z) (redeemableTokens st))
    None.

Definition handleTokenUpdated (u : Update) (st : State) : State :=
  let duplicate :=
    JSArray.some
      (fun e index =>
         isAddress (address (newToken u))
         && negb (Z.of_nat index =? componentIndex u)%Z
         && addressesEqual (address (token e)) (address (newToken u)))
      (redeemableTokens st) in
  if duplicate then mkState (redeemableTokens st) (Some ALREADY_SELECTED)
  else
    mkState
      (JSArray.map
         (fun item i =>
            if (Z.of_nat i =? componentIndex u)%Z
            then mkEntry (newToken u) (newSelectedIndex u)
            else item)
         (redeemableTokens st))
      None.

Definition handleSubmit (dataKey : str) (data : list (str * Val)) (st : State)
    : State * list Effect :=
  let filteredRedeemableTokens :=
    List.filter (fun e => negb (bool_decide (address (token e) = js "")))
      (redeemableTokens st) in
  let error := validationError filteredRedeemableTokens in
  let st' := mkState (redeemableTokens st) error in
  if negb (truthy error) then
    let screenData := VObject [(js "redeemableTokens", VTokens filteredRedeemableTokens)] in
    (st', [PreventDefault;
           Next (if truthy (Some dataKey)
                 then VObject (setProp data dataKey screenData)
                 else screenData)])
  else (st', [PreventDefault]).

(** No two rows hold the same valid address. *)
Definition distinctValid (rows : list Entry) : Prop :=
  forall i j a b,
    i <> j -> rows !! i = Some a -> rows !! j = Some b ->
    isAddress (address (token a)) = true ->
    isAddress (address (token b)) = true ->
    addressesEqual (address (token a)) (address (token b)) = false.

End Screen.

(** Modelled from the spec: [addressesEqual] of the UI library, which is
    not among the sources; the two addresses are compared without regard
    to the case of their letters. *)
Definition lowerCase (s : str) : str :=
  List.map (fun c => if (0x41 <=? c) && (c <=? 0x5A) then c + 0x20 else c) s.

Definition exampleAddressesEqual (a b : str) : bool :=
  bool_decide (lowerCase a = lowerCase b).

End Redemptions.

(** * Properties *)

(** ** String methods *)

Module JSFacts.
Import JS.

Lemma lacks_app c a b : lacks c (a ++ b) = lacks c a && lacks c b.
Proof. apply forallb_app. Qed.

Lemma lacks_cons c x s : lacks c (x :: s) = negb (x =? c) && lacks c s.
Proof. reflexivity. Qed.

Lemma startsWith_app p t : startsWith p (p ++ t) = true.
Proof. induction p as [|a p IH]; simpl; [done|]. by rewrite N.eqb_refl. Qed.

Lemma startsWith_true p s : startsWith p s = true -> s = p ++ drop (length p) s.
Proof.
  revert s. induction p as [|a p IH]; intros [|b s]; simpl; try done.
  intros [Hab Hp]%andb_prop. apply N.eqb_eq in Hab as ->. by rewrite <- IH.
Qed.

Lemma startsWith_first c p x s : (x =? c) = false -> startsWith (c :: p) (x :: s) = false.
Proof. simpl. rewrite N.eqb_sym. by intros ->. Qed.

Lemma cut_eq sep s :
  cut sep s =
  if startsWith sep s then Some ([], drop (length sep) s)
  else match s with
       | [] => None
       | c :: s' =>
           match cut sep s' with
           | Some (a, b) => Some (c :: a, b)
           | None => None
           end
       end.
Proof. by destruct s. Qed.

Lemma cut_Some sep s a b : cut sep s = Some (a, b) -> s = a ++ sep ++ b.
Proof.
  revert a. induction s as [|c s IH]; intros a; simpl.
  - destruct (startsWith sep []) eqn:E; [|done].
    intros [= <- <-]. simpl. rewrite <- (startsWith_true _ _ E) at 1. done.
  - destruct (startsWith sep (c :: s)) eqn:E.
    + intros [= <- <-]. simpl. by rewrite <- (startsWith_true _ _ E).
    + destruct (cut sep s) as [[a' b']|] eqn:Ec; [|done].
      intros [= <- <-]. simpl. f_equal. by apply IH.
Qed.

(** A separator whose first code unit is absent does not occur. *)
Lemma cut_lacks c sep s : lacks c s = true -> cut (c :: sep) s = None.
Proof.
  induction s as [|x s IH]; [done|].
  rewrite lacks_cons. intros [Hx Hs]%andb_prop.
  apply negb_true_iff in Hx.
  by rewrite cut_eq, (startsWith_first _ _ _ _ Hx), (IH Hs).
Qed.

(** The first occurrence is found where the text before it has none of
    the separator's first code unit. *)
Lemma cut_first c sep a b :
  lacks c a = true -> cut (c :: sep) (a ++ (c :: sep) ++ b) = Some (a, b).
Proof.
  induction a as [|x a IH].
  - intros _. change ([] ++ ?l) with l.
    by rewrite cut_eq, startsWith_app, drop_app_length.
  - rewrite lacks_cons. intros [Hx Ha]%andb_prop.
    apply negb_true_iff in Hx.
    change ((x :: a) ++ ?l) with (x :: (a ++ l)).
    by rewrite cut_eq, (startsWith_first _ _ _ _ Hx), (IH Ha).
Qed.

Lemma cut_length sep s a b :
  cut sep s = Some (a, b) -> length s = (length a + length sep + length b)%nat.
Proof. intros ->%cut_Some. rewrite !length_app. lia. Qed.

(** Once there is fuel for every code unit, more fuel changes nothing. *)
Lemma split_loop_fuel c sep n m s :
  (length s < n)%nat -> (length s < m)%nat ->
  split_loop n (c :: sep) s = split_loop m (c :: sep) s.
Proof.
  revert m s. induction n as [|n IH]; intros [|m] s Hn Hm; try lia.
  simpl. destruct (cut (c :: sep) s) as [[a b]|] eqn:E; [|done].
  apply cut_length in E. simpl in E. f_equal. apply IH; lia.
Qed.

(** [split] cuts at the first occurrence and goes on with the rest. *)
Lemma split_unfold c sep s :
  split (c :: sep) s =
  match cut (c :: sep) s with
  | Some (a, b) => a :: split (c :: sep) b
  | None => [s]
  end.
Proof.
  unfold split.
  change (split_loop (S (length s)) (c :: sep) s) with
    (match cut (c :: sep) s with
     | Some (a, b) => a :: split_loop (length s) (c :: sep) b
     | None => [s]
     end).
  destruct (cut (c :: sep) s) as [[a b]|] eqn:E; [|done].
  apply cut_length in E. simpl in E. f_equal. apply split_loop_fuel; lia.
Qed.

Lemma split_lacks c sep s : lacks c s = true -> split (c :: sep) s = [s].
Proof. intros H. by rewrite split_unfold, cut_lacks. Qed.

Lemma split_first c sep a b :
  lacks c a = true -> split (c :: sep) (a ++ (c :: sep) ++ b) = a :: split (c :: sep) b.
Proof. intros H. by rewrite split_unfold, cut_first. Qed.

(** Splitting a joined path at the slashes gives the segments back. *)
Lemma split_joinPath first segs :
  slashFree first = true -> forallb slashFree segs = true ->
  split (js "/") (first ++ joinPath segs) = first :: segs.
Proof.
  revert first. induction segs as [|seg segs IH]; intros first Hf Hs.
  - unfold joinPath. simpl. rewrite app_nil_r. by apply split_lacks.
  - simpl in Hs. apply andb_prop in Hs as [Hseg Hs].
    change (joinPath (seg :: segs)) with (js "/" ++ seg ++ joinPath segs).
    change (js "/") with [0x2F] in *.
    rewrite (split_first 0x2F [] first (seg ++ joinPath segs) Hf).
    f_equal. by apply IH.
Qed.

(** The first piece of a split is never missing. *)
Lemma split_nonempty c sep s : exists piece, split (c :: sep) s !! 0%nat = Some piece.
Proof. rewrite split_unfold. destruct (cut _ _) as [[a b]|]; by eexists. Qed.

(** The second piece of a split is the field after the first marker. *)
Lemma split_second c sep s :
  split (c :: sep) s !! 1%nat = fieldAfterMarker (c :: sep) s.
Proof.
  unfold fieldAfterMarker, textAfterMarker. rewrite split_unfold.
  destruct (cut (c :: sep) s) as [[a b]|]; [|done].
  cbn [lookup list_lookup]. rewrite split_unfold.
  by destruct (cut (c :: sep) b) as [[a' b']|].
Qed.

(** A prefix test across a concatenation succeeds inside the first part
    or runs over into the second. *)
Lemma startsWith_app_inv p a t :
  startsWith p (a ++ t) = true ->
  startsWith p a = true
  \/ exists k, p = a ++ k /\ k <> [] /\ startsWith k t = true.
Proof.
  revert p. induction a as [|x a IH]; intros p H.
  - destruct p as [|y p]; [by left|]. right. by exists (y :: p).
  - destruct p as [|y p]; [by left|]. simpl in H.
    apply andb_prop in H as [Hxy Hp]. apply N.eqb_eq in Hxy as ->.
    destruct (IH p Hp) as [Ha|(k & -> & Hk & Ht)].
    + left. simpl. by rewrite N.eqb_refl.
    + right. by exists k.
Qed.

Lemma includes_cons_false sep x s :
  includes sep (x :: s) = false ->
  startsWith sep (x :: s) = false /\ includes sep s = false.
Proof.
  unfold includes. rewrite (cut_eq sep (x :: s)).
  destruct (startsWith sep (x :: s)); [done|].
  by destruct (cut sep s) as [[??]|].
Qed.

(** A marker whose first code unit does not come back later in it is
    found right after a text that does not include it. *)
Lemma cut_marker c sep a b :
  lacks c sep = true -> includes (c :: sep) a = false ->
  cut (c :: sep) (a ++ (c :: sep) ++ b) = Some (a, b).
Proof.
  intros Hc. induction a as [|x a IH]; intros Ha.
  - change ([] ++ ?l) with l. by rewrite cut_eq, startsWith_app, drop_app_length.
  - apply includes_cons_false in Ha as [Hx Ha].
    change ((x :: a) ++ ?l) with (x :: (a ++ l)).
    rewrite cut_eq, (IH Ha).
    destruct (startsWith (c :: sep) (x :: a ++ (c :: sep) ++ b)) eqn:E; [|done].
    change (x :: a ++ ?l) with ((x :: a) ++ l) in E.
    apply startsWith_app_inv in E as [E|(k & Hk & Hne & E)]; [congruence|].
    destruct k as [|y k]; [done|]. simpl in E.
    apply andb_prop in E as [E _]. apply N.eqb_eq in E. subst y.
    injection Hk as _ Hsep. rewrite Hsep in Hc.
    rewrite lacks_app, lacks_cons, N.eqb_refl in Hc.
    by destruct (lacks c a).
Qed.

Lemma cut_absent sep s : includes sep s = false -> cut sep s = None.
Proof. unfold includes. by destruct (cut sep s). Qed.

(** An occurrence anywhere is found by [includes]. *)
Lemma includes_occurrence sep u v : includes sep (u ++ sep ++ v) = true.
Proof.
  unfold includes. induction u as [|x u IH].
  - change ([] ++ ?l) with l. by rewrite cut_eq, startsWith_app.
  - change ((x :: u) ++ ?l) with (x :: (u ++ l)). rewrite cut_eq.
    destruct (startsWith sep _); [done|].
    by destruct (cut sep (u ++ sep ++ v)) as [[??]|].
Qed.

Lemma endsWith_includes p s : endsWith p s = true -> includes p s = true.
Proof.
  unfold endsWith. intros H%startsWith_true.
  assert (exists u, s = u ++ p) as [u ->].
  { exists (rev (drop (length (rev p)) (rev s))).
    rewrite <- (rev_involutive p) at 2.
    by rewrite <- rev_app_distr, <- H, rev_involutive. }
  pose proof (includes_occurrence p u []) as Hi. by rewrite app_nil_r in Hi.
Qed.

(** A code unit that is absent is not where a cut is made. *)
Lemma cut_one_lacks c s : lacks c s = true -> cut [c] s = None.
Proof. apply cut_lacks. Qed.

End JSFacts.


(** ** The URI built-ins *)

Module URIFacts.
Import JS JSFacts.

#[local] Ltac Zify.zify_post_hook ::= Z.to_euclidean_division_equations.

(** Boolean tests as arithmetic facts. *)
Ltac arith :=
  rewrite ?orb_true_iff, ?andb_true_iff, ?negb_true_iff, ?orb_false_iff,
    ?andb_false_iff, ?negb_false_iff, ?N.leb_le, ?N.ltb_lt, ?N.eqb_eq,
    ?N.eqb_neq, ?N.leb_gt, ?N.ltb_ge in *.

Ltac by_arith := intros; arith; lia.

Ltac cases :=
  repeat (match goal with
          | |- context [?a <? ?b] => destruct (N.ltb_spec a b)
          | |- context [?a <=? ?b] => destruct (N.leb_spec a b)
          | |- context [?a =? ?b] => destruct (N.eqb_spec a b)
          end; try lia; cbn [andb orb negb]).

Lemma fmap_Ok_inv {A B} (f : A -> B) (r : result A) (b : B) :
  f <$> r = Ok b -> exists a, r = Ok a /\ b = f a.
Proof. destruct r as [a|e]; [|done]. intros [= <-]. eauto. Qed.

Lemma hexValue_hexDigit x : x < 16 -> hexValue (hexDigit x) = Some x.
Proof.
  intros Hx. unfold hexValue, hexDigit.
  destruct (N.ltb_spec x 10); cases; f_equal; lia.
Qed.

Lemma hexOctet_pct b :
  b < 256 -> hexOctet (hexDigit (b / 16)) (hexDigit (b mod 16)) = Some b.
Proof.
  intros Hb. unfold hexOctet.
  rewrite !hexValue_hexDigit by lia. f_equal. lia.
Qed.

Lemma escapeOctet_pct b :
  b < 256 ->
  escapeOctet 0x25 (hexDigit (b / 16)) (hexDigit (b mod 16)) = Some b.
Proof. intros Hb. unfold escapeOctet. simpl. by apply hexOctet_pct. Qed.

Lemma hexDigit_unescaped x : x < 16 -> uriUnescaped (hexDigit x) = true.
Proof.
  intros Hx. unfold uriUnescaped, hexDigit.
  destruct (N.ltb_spec x 10); arith; lia.
Qed.

Lemma unescaped_not_percent c : uriUnescaped c = true -> (c =? 0x25) = false.
Proof. unfold uriUnescaped. by_arith. Qed.

(** *** Decoding one escaped code point *)

Lemma decode_plain c r :
  (c =? 0x25) = false ->
  decodeURIComponent (c :: r) = cons c <$> decodeURIComponent r.
Proof. intros H. cbn [decodeURIComponent]. by rewrite H. Qed.

Ltac decode_step :=
  unfold pctOctet;
  cbn [app decodeURIComponent negb N.eqb Pos.eqb];
  rewrite ?hexOctet_pct, ?escapeOctet_pct by lia.

Lemma decode_1 b r :
  b < 0x80 ->
  decodeURIComponent (pctOctet b ++ r) = cons b <$> decodeURIComponent r.
Proof. intros Hb. decode_step. by cases. Qed.

Lemma decode_2 b1 b2 r :
  0xC0 <= b1 < 0xE0 -> b2 < 256 ->
  decodeURIComponent (pctOctet b1 ++ pctOctet b2 ++ r) =
  match utf8Decode2 b1 b2 with
  | Some cp => app (utf16EncodeCodePoint cp) <$> decodeURIComponent r
  | None => Throw URIError
  end.
Proof. intros H1 H2. decode_step. by cases. Qed.

Lemma decode_3 b1 b2 b3 r :
  0xE0 <= b1 < 0xF0 -> b2 < 256 -> b3 < 256 ->
  decodeURIComponent (pctOctet b1 ++ pctOctet b2 ++ pctOctet b3 ++ r) =
  match utf8Decode3 b1 b2 b3 with
  | Some cp => app (utf16EncodeCodePoint cp) <$> decodeURIComponent r
  | None => Throw URIError
  end.
Proof. intros H1 H2 H3. decode_step. by cases. Qed.

Lemma decode_4 b1 b2 b3 b4 r :
  0xF0 <= b1 < 0xF8 -> b2 < 256 -> b3 < 256 -> b4 < 256 ->
  decodeURIComponent
    (pctOctet b1 ++ pctOctet b2 ++ pctOctet b3 ++ pctOctet b4 ++ r) =
  match utf8Decode4 b1 b2 b3 b4 with
  | Some cp => app (utf16EncodeCodePoint cp) <$> decodeURIComponent r
  | None => Throw URIError
  end.
Proof. intros H1 H2 H3 H4. decode_step. by cases. Qed.

(** *** UTF-8 read back *)

Lemma utf8Decode2_encode cp :
  0x80 <= cp < 0x800 ->
  utf8Decode2 (0xC0 + cp / 0x40) (0x80 + cp mod 0x40) = Some cp.
Proof.
  intros H. unfold utf8Decode2, isContinuation.
  replace ((0xC0 + cp / 0x40 - 0xC0) * 0x40 + (0x80 + cp mod 0x40 - 0x80))
    with cp by lia.
  by cases.
Qed.

Lemma utf8Decode3_encode cp :
  0x800 <= cp < 0x10000 -> ~ (0xD800 <= cp <= 0xDFFF) ->
  utf8Decode3 (0xE0 + cp / 0x1000) (0x80 + (cp / 0x40) mod 0x40)
    (0x80 + cp mod 0x40) = Some cp.
Proof.
  intros H Hs. unfold utf8Decode3, isContinuation.
  replace ((0xE0 + cp / 0x1000 - 0xE0) * 0x1000
           + (0x80 + (cp / 0x40) mod 0x40 - 0x80) * 0x40
           + (0x80 + cp mod 0x40 - 0x80)) with cp by lia.
  by cases.
Qed.

Lemma utf8Decode4_encode cp :
  0x10000 <= cp <= 0x10FFFF ->
  utf8Decode4 (0xF0 + cp / 0x40000) (0x80 + (cp / 0x1000) mod 0x40)
    (0x80 + (cp / 0x40) mod 0x40) (0x80 + cp mod 0x40) = Some cp.
Proof.
  intros H. unfold utf8Decode4, isContinuation.
  replace ((0xF0 + cp / 0x40000 - 0xF0) * 0x40000
           + (0x80 + (cp / 0x1000) mod 0x40 - 0x80) * 0x1000
           + (0x80 + (cp / 0x40) mod 0x40 - 0x80) * 0x40
           + (0x80 + cp mod 0x40 - 0x80)) with cp by lia.
  by cases.
Qed.

Lemma utf16_pair c d :
  isLeadingSurrogate c = true -> isTrailingSurrogate d = true ->
  0x10000 <= surrogatePairToCodePoint c d <= 0x10FFFF /\
  utf16EncodeCodePoint (surrogatePairToCodePoint c d) = [c; d].
Proof.
  unfold isLeadingSurrogate, isTrailingSurrogate, surrogatePairToCodePoint,
    utf16EncodeCodePoint.
  intros Hc Hd. arith. split; [lia|].
  destruct (N.ltb_spec ((c - 0xD800) * 0x400 + (d - 0xDC00) + 0x10000) 0x10000);
    [lia|].
  f_equal; [lia|]. f_equal. lia.
Qed.

(** *** One code point, escaped and read back *)

Lemma pctEncode_utf8 cp :
  pctEncode (utf8Encode cp) =
  if cp <? 0x80 then pctOctet cp
  else if cp <? 0x800 then
    pctOctet (0xC0 + cp / 0x40) ++ pctOctet (0x80 + cp mod 0x40)
  else if cp <? 0x10000 then
    pctOctet (0xE0 + cp / 0x1000) ++ pctOctet (0x80 + (cp / 0x40) mod 0x40)
      ++ pctOctet (0x80 + cp mod 0x40)
  else
    pctOctet (0xF0 + cp / 0x40000) ++ pctOctet (0x80 + (cp / 0x1000) mod 0x40)
      ++ pctOctet (0x80 + (cp / 0x40) mod 0x40) ++ pctOctet (0x80 + cp mod 0x40).
Proof.
  unfold utf8Encode, pctEncode.
  repeat case_match; cbn [map concat]; by rewrite ?app_nil_r.
Qed.

Lemma decode_escaped cp r :
  cp <= 0x10FFFF -> ~ (0xD800 <= cp <= 0xDFFF) ->
  decodeURIComponent (pctEncode (utf8Encode cp) ++ r) =
  app (utf16EncodeCodePoint cp) <$> decodeURIComponent r.
Proof.
  intros Hmax Hsur. rewrite pctEncode_utf8.
  destruct (N.ltb_spec cp 0x80) as [H1|H1].
  { rewrite decode_1 by done. unfold utf16EncodeCodePoint.
    destruct (N.ltb_spec cp 0x10000); [done|lia]. }
  destruct (N.ltb_spec cp 0x800) as [H2|H2].
  { rewrite <- app_assoc, decode_2 by lia. by rewrite utf8Decode2_encode by lia. }
  destruct (N.ltb_spec cp 0x10000) as [H3|H3].
  { rewrite <- !app_assoc, decode_3 by lia.
    by rewrite utf8Decode3_encode by lia. }
  rewrite <- !app_assoc, decode_4 by lia.
  by rewrite utf8Decode4_encode by lia.
Qed.

Lemma pctOctet_safe b : b < 256 -> forallb uriSafe (pctOctet b) = true.
Proof.
  intros Hb. unfold pctOctet, uriSafe. cbn [forallb].
  rewrite !hexDigit_unescaped by lia. done.
Qed.

Ltac safe_octets :=
  lazymatch goal with
  | |- _ && _ = true =>
      apply andb_true_intro; split; [apply pctOctet_safe; lia | safe_octets]
  | |- _ => apply pctOctet_safe; lia
  end.

Lemma escaped_safe cp :
  cp <= 0x10FFFF -> forallb uriSafe (pctEncode (utf8Encode cp)) = true.
Proof.
  intros Hmax. rewrite pctEncode_utf8.
  destruct (N.ltb_spec cp 0x80); [by apply pctOctet_safe; lia|].
  destruct (N.ltb_spec cp 0x800); [|destruct (N.ltb_spec cp 0x10000)];
    rewrite !forallb_app; safe_octets.
Qed.

Lemma escaped_nonempty cp : exists x t, pctEncode (utf8Encode cp) = x :: t.
Proof. rewrite pctEncode_utf8. unfold pctOctet. repeat case_match; simpl; eauto. Qed.

(** *** The round trip *)

Lemma isString_cons c r : isString (c :: r) = true -> c < 0x10000 /\ isString r = true.
Proof.
  unfold isString. cbn [forallb]. intros [Hc Hr]%andb_prop.
  split; [|done]. unfold isCodeUnit in Hc. by_arith.
Qed.

Lemma encode_decode_fuel n : forall s e,
  (length s <= n)%nat -> isString s = true ->
  encodeURIComponent s = Ok e ->
  decodeURIComponent e = Ok s /\ forallb uriSafe e = true /\ (s <> [] -> e <> []).
Proof.
  induction n as [|n IH]; intros [|c r] e Hlen Hstr Henc;
    try (simpl in Hlen; lia); try (injection Henc as <-; done).
  apply isString_cons in Hstr as [Hc Hr]. simpl in Hlen.
  cbn [encodeURIComponent] in Henc.
  destruct (uriUnescaped c) eqn:Hu.
  { apply fmap_Ok_inv in Henc as (e' & He' & ->).
    destruct (IH r e') as (Hd & Hs & _); [lia|done..|].
    rewrite decode_plain, Hd by by apply unescaped_not_percent.
    cbn [forallb]. unfold uriSafe at 1. by rewrite Hu, Hs. }
  destruct (isLeadingSurrogate c) eqn:Hl.
  { destruct r as [|d r']; [done|].
    destruct (isTrailingSurrogate d) eqn:Ht; [|done].
    apply fmap_Ok_inv in Henc as (e' & He' & ->).
    apply isString_cons in Hr as [Hd Hr']. simpl in Hlen.
    destruct (IH r' e') as (Hdec & Hs & _); [lia|done..|].
    destruct (utf16_pair c d Hl Ht) as [Hcp Hpair].
    rewrite decode_escaped, Hdec, Hpair by lia.
    rewrite forallb_app, escaped_safe, Hs by lia.
    destruct (escaped_nonempty (surrogatePairToCodePoint c d)) as (x & t & ->).
    done. }
  destruct (isTrailingSurrogate c) eqn:Ht; [done|].
  apply fmap_Ok_inv in Henc as (e' & He' & ->).
  destruct (IH r e') as (Hdec & Hs & _); [lia|done..|].
  assert (~ (0xD800 <= c <= 0xDFFF)) as Hsur.
  { unfold isLeadingSurrogate, isTrailingSurrogate in *. arith. lia. }
  rewrite decode_escaped, Hdec by lia.
  rewrite forallb_app, escaped_safe, Hs by lia.
  destruct (escaped_nonempty c) as (x & t & ->).
  unfold utf16EncodeCodePoint. destruct (N.ltb_spec c 0x10000); [done|lia].
Qed.

(** [decodeURIComponent] undoes [encodeURIComponent]. *)
Lemma decode_encode s e :
  isString s = true -> encodeURIComponent s = Ok e ->
  decodeURIComponent e = Ok s.
Proof. intros Hs He. by eapply (encode_decode_fuel (length s)). Qed.

Lemma encode_safe s e :
  isString s = true -> encodeURIComponent s = Ok e -> forallb uriSafe e = true.
Proof. intros Hs He. by eapply (encode_decode_fuel (length s)). Qed.

Lemma encode_nonempty s e :
  isString s = true -> encodeURIComponent s = Ok e -> s <> [] -> e <> [].
Proof. intros Hs He. by eapply (encode_decode_fuel (length s)). Qed.

(** [encodeURIComponent] returns on every well-formed string. *)
Lemma encode_wellFormed_fuel n : forall s,
  (length s <= n)%nat -> isWellFormed s = true ->
  exists e, encodeURIComponent s = Ok e.
Proof.
  induction n as [|n IH]; intros [|c r] Hlen Hwf;
    try (simpl in Hlen; lia); try (by eexists).
  simpl in Hlen. cbn [encodeURIComponent isWellFormed] in *.
  destruct (isLeadingSurrogate c) eqn:Hl.
  - assert (uriUnescaped c = false) as ->.
    { unfold uriUnescaped, isLeadingSurrogate in *. arith. lia. }
    destruct r as [|d r']; [done|]. apply andb_prop in Hwf as [-> Hr].
    simpl in Hlen. destruct (IH r') as [e ->]; [lia|done|]. by eexists.
  - apply andb_prop in Hwf as [Ht%negb_true_iff Hr]. rewrite Ht.
    destruct (IH r) as [e ->]; [lia|done|].
    destruct (uriUnescaped c); by eexists.
Qed.

Lemma encode_wellFormed s :
  isWellFormed s = true -> exists e, encodeURIComponent s = Ok e.
Proof. by apply (encode_wellFormed_fuel (length s)). Qed.

(** The escaped text has none of the delimiters of a location. *)
Lemma safe_lacks c e :
  uriSafe c = false -> forallb uriSafe e = true -> lacks c e = true.
Proof.
  intros Hc. induction e as [|x e IH]; [done|].
  cbn [forallb]. intros [Hx He]%andb_prop. rewrite lacks_cons, (IH He).
  destruct (N.eqb_spec x c) as [->|]; [congruence|done].
Qed.

End URIFacts.

(** ** The preferences parser *)

Module PreferencesFacts.
Import JS JSFacts.

(** The value of the preferences query, read off the search string. *)
Lemma parsePreferences_query pre raw :
  includes GLOBAL_PREFERENCES_QUERY_PARAM pre = false ->
  includes GLOBAL_PREFERENCES_QUERY_PARAM raw = false ->
  split GLOBAL_PREFERENCES_QUERY_PARAM (pre ++ GLOBAL_PREFERENCES_QUERY_PARAM ++ raw)
    !! 1%nat = Some raw.
Proof.
  intros Hpre Hraw. unfold GLOBAL_PREFERENCES_QUERY_PARAM in *.
  change (js "?preferences=/") with (0x3F :: js "preferences=/") in *.
  rewrite split_second. unfold fieldAfterMarker, textAfterMarker.
  rewrite cut_marker by done. by rewrite cut_absent.
Qed.

(** C9: in a search string [...?preferences=/<path>&labels=<labels>] the
    preferences have the given path, and their [params] map the one key
    ["&labels="] to the labels; when nothing follows the marker the map
    is empty. *)
Theorem parsePreferences_labels pre path labels :
  includes GLOBAL_PREFERENCES_QUERY_PARAM pre = false ->
  includes GLOBAL_PREFERENCES_QUERY_PARAM
    (path ++ GLOBAL_PREFERENCES_SHARE_LINK_QUERY_VAR ++ labels) = false ->
  includes GLOBAL_PREFERENCES_SHARE_LINK_QUERY_VAR path = false ->
  includes GLOBAL_PREFERENCES_SHARE_LINK_QUERY_VAR labels = false ->
  parsePreferences
    (pre ++ js "?preferences=/" ++ path ++ js "&labels=" ++ labels)
  = mkPreferences (Some path)
      (match labels with
       | [] => ∅
       | _ :: _ => {[ js "&labels=" := labels ]}
       end).
Proof.
  intros Hpre Hraw Hpath Hlabels. unfold parsePreferences.
  change (js "?preferences=/") with GLOBAL_PREFERENCES_QUERY_PARAM.
  change (js "&labels=") with GLOBAL_PREFERENCES_SHARE_LINK_QUERY_VAR.
  destruct (pre ++ _) as [|x s] eqn:Hs.
  { by destruct pre. }
  rewrite <- Hs, parsePreferences_query by done.
  cbn [default from_option id].
  unfold GLOBAL_PREFERENCES_SHARE_LINK_QUERY_VAR in *.
  change (js "&labels=") with (0x26 :: js "labels=") in *.
  rewrite split_unfold, cut_marker by done.
  rewrite split_unfold, cut_absent by done.
  by destruct labels.
Qed.

(** Without the labels marker the map is empty. *)
Lemma parsePreferences_no_labels pre path :
  includes GLOBAL_PREFERENCES_QUERY_PARAM pre = false ->
  includes GLOBAL_PREFERENCES_QUERY_PARAM path = false ->
  includes GLOBAL_PREFERENCES_SHARE_LINK_QUERY_VAR path = false ->
  parsePreferences (pre ++ js "?preferences=/" ++ path)
  = mkPreferences (Some path) ∅.
Proof.
  intros Hpre Hraw Hpath. unfold parsePreferences.
  change (js "?preferences=/") with GLOBAL_PREFERENCES_QUERY_PARAM.
  destruct (pre ++ _) as [|x s] eqn:Hs.
  { by destruct pre. }
  rewrite <- Hs, parsePreferences_query by done.
  cbn [default from_option id].
  unfold GLOBAL_PREFERENCES_SHARE_LINK_QUERY_VAR in *.
  change (js "&labels=") with (0x26 :: js "labels=") in *.
  by rewrite split_unfold, cut_absent.
Qed.

(** ["?preferences=/admin&labels=xyz"] *)
Lemma parsePreferences_labels_example :
  parsePreferences (js "?preferences=/admin&labels=xyz")
  = mkPreferences (Some (js "admin")) {[ js "&labels=" := js "xyz" ]}.
Proof.
  exact (parsePreferences_labels (js "") (js "admin") (js "xyz")
           eq_refl eq_refl eq_refl eq_refl).
Defined.

(** C6: [parsePreferences("")] has no params, and its [path] is the empty
    string: [split] always gives a first piece, so the [null] default of
    the destructuring is not taken. *)
Theorem parsePreferences_empty :
  parsePreferences (js "") = mkPreferences (Some (js "")) ∅
  /\ pref_path (parsePreferences (js "")) <> None.
Proof. split; [reflexivity|discriminate]. Qed.

(** The [path] of the preferences is never [null]. *)
Lemma parsePreferences_path_not_null search :
  pref_path (parsePreferences search) <> None.
Proof.
  unfold parsePreferences. cbn [pref_path].
  unfold GLOBAL_PREFERENCES_SHARE_LINK_QUERY_VAR.
  change (js "&labels=") with (0x26 :: js "labels=").
  by destruct (split_nonempty 0x26 (js "labels=")
                 (match search with
                  | [] => []
                  | _ :: _ =>
                      default [] (split GLOBAL_PREFERENCES_QUERY_PARAM search !! 1%nat)
                  end)) as [piece ->].
Qed.

End PreferencesFacts.

(** ** The locator parser *)

Section RoutingFacts.
Import JS JSFacts URIFacts.

Variable isAddress : str -> bool.
Variable isValidEnsName : str -> bool.
Variable staticApps : gmap str StaticApp.

#[local] Abbreviation parse := (parsePath isAddress isValidEnsName).
#[local] Abbreviation build := (getAppPath staticApps).
#[local] Abbreviation organization := (parseOrganization isAddress isValidEnsName).
#[local] Abbreviation nameOf := (daoOf isAddress isValidEnsName).
#[local] Abbreviation redirects := (redirectOf isAddress isValidEnsName).

Lemma reservedSegment_false seg :
  reservedSegment seg = false ->
  truthy (Some seg) = true /\ strictEq (Some seg) (js "open") = false
  /\ strictEq (Some seg) (js "create") = false
  /\ strictEq (Some seg) (js "setup") = false.
Proof.
  unfold reservedSegment, strictEq. intros H%bool_decide_eq_false.
  rewrite !not_elem_of_cons in H. destruct H as (H0 & H1 & H2 & H3 & _).
  repeat split; try (apply bool_decide_eq_false; congruence).
  by destruct seg.
Qed.

Lemma parsePath_segments history pathname search dao rest :
  tail (split (js "/") pathname) = dao :: rest ->
  reservedSegment dao = false ->
  parse history pathname search
  = organization history pathname search dao rest.
Proof.
  intros Hparts (Ht & Ho & Hc & Hs)%reservedSegment_false.
  unfold parsePath, parseOrganization. rewrite Hparts.
  change ((dao :: rest) !! 0%nat) with (Some dao).
  rewrite Ht, Ho, Hc, Hs. reflexivity.
Qed.

(** The segments of a path of the form [first/dao/rest...]. *)
Lemma parsePath_org history first dao rest search :
  slashFree first = true -> forallb slashFree (dao :: rest) = true ->
  reservedSegment dao = false ->
  parse history (first ++ joinPath (dao :: rest)) search
  = organization history (first ++ joinPath (dao :: rest)) search dao rest.
Proof.
  intros Hf Hs Hr. apply parsePath_segments; [|done].
  by rewrite split_joinPath.
Qed.

(** Running the two effectful steps of the organization branch. *)
Lemma bind_run {A B} (m : M A) (f : A -> M B) w :
  (m ≫= f) w =
  match m w with
  | (Ok a, w') => f a w'
  | (Throw e, w') => (Throw e, w')
  end.
Proof. reflexivity. Qed.

Lemma params_run search w :
  (if truthy (rawParamsOf search)
   then
     try_catch
       (p ← lift (decodeURIComponent (default [] (rawParamsOf search)));
        mret (Some p))
       (fun err => console_log PARAMS_NOT_VALID;; mret None)
   else mret None) w
  = (Ok (paramsOf search), mkWorld (replaced w) (console w ++ logOf search)).
Proof.
  unfold paramsOf, logOf. destruct w as [rs cs].
  destruct (truthy (rawParamsOf search)); cbn.
  - unfold try_catch, lift, mbind, M_bind, mret, M_ret, console_log.
    destruct (decodeURIComponent _); cbn; by rewrite ?app_nil_r.
  - unfold mret, M_ret. by rewrite app_nil_r.
Qed.

(** The organization branch with the browser's handle, run to the end. *)
Lemma parseOrganization_run pathname search dao rest w :
  organization browserHistory pathname search dao rest w
  = (Ok (OrgLocator (pathname ++ search) (nameOf dao)
           (if truthy (rest !! 0%nat) then default [] (rest !! 0%nat) else js "home")
           (paramsOf search) (drop 1 rest) (parsePreferences search)),
     mkWorld (replaced w ++ redirects pathname search dao)
       (console w ++ logOf search)).
Proof.
  unfold parseOrganization, daoOf, redirectOf.
  rewrite bind_run.
  destruct (negb (isAddress dao) && negb (isValidEnsName dao)).
  - cbn [mret M_ret]. rewrite bind_run, params_run. by rewrite app_nil_r.
  - destruct (isValidEnsName dao && endsWith ARAGONID_ENS_DOMAIN dao).
    + rewrite bind_run. cbn [history_replace browserHistory mret M_ret].
      rewrite bind_run, params_run. done.
    + cbn [mret M_ret]. rewrite bind_run, params_run. by rewrite app_nil_r.
Qed.

(** With a handle that returns, [parsePath] returns on every input. *)
Lemma parsePath_returns pathname search w :
  exists L w', parse browserHistory pathname search w = (Ok L, w').
Proof.
  destruct (tail (split (js "/") pathname)) as [|dao rest] eqn:Hparts.
  { unfold parsePath. rewrite Hparts. by eexists _, _. }
  destruct (reservedSegment dao) eqn:Hr.
  - apply bool_decide_eq_true in Hr.
    unfold parsePath. rewrite Hparts.
    rewrite !elem_of_cons in Hr.
    destruct Hr as [->|[->|[->|[->|[]%elem_of_nil]]]]; by eexists _, _.
  - rewrite (parsePath_segments _ _ _ _ _ Hparts Hr), parseOrganization_run.
    by eexists _, _.
Qed.

Lemma bind_Ok_inv {A B} (m : M A) (f : A -> M B) w b w' :
  (m ≫= f) w = (Ok b, w') ->
  exists a w1, m w = (Ok a, w1) /\ f a w1 = (Ok b, w').
Proof.
  rewrite bind_run. destruct (m w) as [[a|e] w1]; [|done]. eauto.
Qed.

(** Whatever the handle does, a locator of the organization branch has
    these fields. *)
Lemma parseOrganization_shape history pathname search dao rest w L w' :
  organization history pathname search dao rest w = (Ok L, w') ->
  exists dao' params,
    L = OrgLocator (pathname ++ search) dao'
          (if truthy (rest !! 0%nat) then default [] (rest !! 0%nat) else js "home")
          params (drop 1 rest) (parsePreferences search).
Proof.
  unfold parseOrganization.
  intros (dao' & w1 & _ & (params & w2 & _ & [= <- _])%bind_Ok_inv)%bind_Ok_inv.
  eauto.
Qed.

(** Without a redirect the handle is not called. *)
Lemma parseOrganization_quiet history pathname search dao rest w :
  isValidEnsName dao && endsWith ARAGONID_ENS_DOMAIN dao = false ->
  organization history pathname search dao rest w
  = (Ok (OrgLocator (pathname ++ search) (nameOf dao)
           (if truthy (rest !! 0%nat) then default [] (rest !! 0%nat) else js "home")
           (paramsOf search) (drop 1 rest) (parsePreferences search)),
     mkWorld (replaced w) (console w ++ logOf search)).
Proof.
  intros Hq. unfold parseOrganization, daoOf. rewrite Hq, bind_run.
  destruct (negb (isAddress dao) && negb (isValidEnsName dao));
    cbn [mret M_ret]; by rewrite bind_run, params_run.
Qed.

(** *** Start and setup *)

(** C8: for the pathnames [""], ["/"], ["/open"] and ["/create"],
    [parsePath] returns a start-mode locator; [action] is the first
    segment: undefined for the empty pathname, the empty string for
    ["/"], and ["open"] or ["create"] otherwise.  No effect happens. *)
Theorem parsePath_start history search w :
  parse history (js "") search w
    = (Ok (StartLocator (js "" ++ search) None), w)
  /\ parse history (js "/") search w
    = (Ok (StartLocator (js "/" ++ search) (Some (js ""))), w)
  /\ parse history (js "/open") search w
    = (Ok (StartLocator (js "/open" ++ search) (Some (js "open"))), w)
  /\ parse history (js "/create") search w
    = (Ok (StartLocator (js "/create" ++ search) (Some (js "create"))), w).
Proof. repeat split. Qed.

(** C7: a pathname whose first segment is ["setup"] gives a setup-mode
    locator, before any organization is looked for: [step] is the second
    segment, or null when there is none, and [parts] are the segments
    after it.  The validators are not consulted and no effect happens. *)
Theorem parsePath_setup history first segs search w :
  slashFree first = true -> forallb slashFree segs = true ->
  parse history (first ++ joinPath (js "setup" :: segs)) search w
  = (Ok (SetupLocator (first ++ joinPath (js "setup" :: segs) ++ search)
           (segs !! 0%nat) (drop 1 segs)), w).
Proof.
  intros Hf Hs. unfold parsePath.
  rewrite split_joinPath by done. by rewrite <- app_assoc.
Qed.

(** *** Organizations *)

(** C5: when the first segment [dao] of the pathname (a segment that does
    not name the start or setup screens) is neither a valid address nor a
    valid ENS name, [parsePath] returns an org-mode locator whose [dao] is
    the segment followed by [".aragonid.eth"]; [instanceId] is the second
    segment, or ["home"] when that is missing or empty.  The navigation
    handle is not called. *)
Theorem parsePath_bare_label history first dao rest search w :
  slashFree first = true -> forallb slashFree (dao :: rest) = true ->
  reservedSegment dao = false ->
  isAddress dao = false -> isValidEnsName dao = false ->
  exists L w',
    parse history (first ++ joinPath (dao :: rest)) search w = (Ok L, w')
    /\ mode L = APP_MODE_ORG
    /\ loc_dao L = Some (dao ++ js ".aragonid.eth")
    /\ loc_instanceId L
       = Some (match rest with
               | [] | [] :: _ => js "home"
               | instanceId :: _ => instanceId
               end)
    /\ replaced w' = replaced w.
Proof.
  intros Hf Hs Hr Ha He.
  rewrite parsePath_org, parseOrganization_quiet by (by rewrite ?He).
  eexists _, _. split; [done|]. unfold daoOf. rewrite Ha, He.
  repeat split. by destruct rest as [|[|??] ?].
Qed.

(** C10: the [instanceId] of an org-mode locator is never empty: it is
    the second segment of the pathname, or ["home"] when that segment is
    missing or is the empty string. *)
Theorem parsePath_instanceId_nonempty history pathname search w L w' :
  parse history pathname search w = (Ok L, w') ->
  mode L = APP_MODE_ORG ->
  exists instanceId,
    loc_instanceId L = Some instanceId /\ instanceId <> []
    /\ instanceId
       = match segments pathname !! 1%nat with
         | None | Some [] => js "home"
         | Some segment => segment
         end.
Proof.
  unfold segments.
  destruct (tail (split (js "/") pathname)) as [|dao rest] eqn:Hparts.
  { unfold parsePath. rewrite Hparts. by intros [= <- _]. }
  destruct (reservedSegment dao) eqn:Hr.
  - apply bool_decide_eq_true in Hr.
    unfold parsePath. rewrite Hparts.
    rewrite !elem_of_cons in Hr.
    destruct Hr as [->|[->|[->|[->|[]%elem_of_nil]]]]; by intros [= <- _].
  - rewrite (parsePath_segments _ _ _ _ _ Hparts Hr).
    intros (dao' & params & ->)%parseOrganization_shape _.
    eexists. split; [done|]. change ((dao :: rest) !! 1%nat) with (rest !! 0%nat).
    by destruct rest as [|[|??] ?].
Qed.

(** *** The [p] parameter *)

Lemma segments_head pathname dao :
  segments pathname !! 0%nat = Some dao ->
  exists rest, tail (split (js "/") pathname) = dao :: rest.
Proof.
  unfold segments. destruct (tail _) as [|d rest]; [done|].
  intros [= ->]. by exists rest.
Qed.

(** What [parsePath] decodes is the field after the first ["?p="]. *)
Lemma paramsOf_field search :
  paramsOf search =
  match fieldAfterMarker (js "?p=") search with
  | Some (c :: raw) =>
      match decodeURIComponent (c :: raw) with
      | Ok p => Some p
      | Throw _ => None
      end
  | _ => None
  end.
Proof.
  unfold paramsOf, rawParamsOf. destruct search as [|x s]; [done|].
  change (js "?p=") with (0x3F :: js "p="). rewrite split_second.
  by destruct (fieldAfterMarker _ _) as [[|c raw]|].
Qed.

Lemma logOf_field search :
  logOf search =
  match fieldAfterMarker (js "?p=") search with
  | Some (c :: raw) =>
      match decodeURIComponent (c :: raw) with
      | Ok p => []
      | Throw _ => [PARAMS_NOT_VALID]
      end
  | _ => []
  end.
Proof.
  unfold logOf, rawParamsOf. destruct search as [|x s]; [done|].
  change (js "?p=") with (0x3F :: js "p="). rewrite split_second.
  by destruct (fieldAfterMarker _ _) as [[|c raw]|].
Qed.

(** C3, as the code has it: on a pathname of an organization,
    [parsePath] takes the text after the first ["?p="] of the search
    string up to the next ["?p="] (or the end), percent-decodes it and
    returns it as [params]; [params] is null when there is no marker,
    when that text is empty, or when it does not decode. *)
Theorem parsePath_decodes_params pathname search dao w :
  segments pathname !! 0%nat = Some dao ->
  reservedSegment dao = false ->
  exists L w',
    parse browserHistory pathname search w = (Ok L, w')
    /\ mode L = APP_MODE_ORG
    /\ loc_params L
       = match fieldAfterMarker (js "?p=") search with
         | Some (c :: raw) =>
             match decodeURIComponent (c :: raw) with
             | Ok p => Some p
             | Throw _ => None
             end
         | _ => None
         end.
Proof.
  intros (rest & Hparts)%segments_head Hr.
  rewrite (parsePath_segments _ _ _ _ _ Hparts Hr), parseOrganization_run.
  eexists _, _. split; [done|]. split; [done|]. apply paramsOf_field.
Qed.

(** C4: when the text of the [p] parameter, which lies between the first
    ["?p="] and the next one or the end of the search string, does not
    percent-decode,
    [parsePath] still returns an org-mode locator; its [params] are null,
    a line goes to the console, and [dao], [instanceId] and [parts] are
    those of the same pathname without a search string. *)
Theorem parsePath_malformed_params pathname search dao raw e w :
  segments pathname !! 0%nat = Some dao ->
  reservedSegment dao = false ->
  fieldAfterMarker (js "?p=") search = Some raw ->
  decodeURIComponent raw = Throw e ->
  exists L w' L0 w0,
    parse browserHistory pathname search w = (Ok L, w')
    /\ parse browserHistory pathname (js "") w = (Ok L0, w0)
    /\ mode L = APP_MODE_ORG
    /\ loc_params L = None
    /\ loc_params L0 = None
    /\ loc_dao L = loc_dao L0
    /\ loc_instanceId L = loc_instanceId L0
    /\ loc_parts L = loc_parts L0
    /\ loc_path L = pathname ++ search
    /\ loc_preferences L = Some (parsePreferences search)
    /\ console w' = console w ++ [PARAMS_NOT_VALID].
Proof.
  intros (rest & Hparts)%segments_head Hr Hraw He.
  rewrite !(parsePath_segments _ _ _ _ _ Hparts Hr), !parseOrganization_run.
  eexists _, _, _, _. split; [done|]. split; [done|].
  cbn [mode loc_params loc_dao loc_instanceId loc_parts loc_path
         loc_preferences console].
  rewrite paramsOf_field, logOf_field, Hraw.
  destruct raw as [|c raw]; [done|]. rewrite He. done.
Qed.

(** *** The redirect to the short name *)

(** When the first segment is a valid ENS name that ends with
    ["aragonid.eth"], the handle is asked once for a replacement, with
    the first [".aragonid.eth"] of the pathname taken out; the locator
    keeps the full name. *)
Lemma parsePath_redirect pathname search dao w :
  segments pathname !! 0%nat = Some dao ->
  isValidEnsName dao = true ->
  endsWith ARAGONID_ENS_DOMAIN dao = true ->
  exists L w',
    parse browserHistory pathname search w = (Ok L, w')
    /\ mode L = APP_MODE_ORG
    /\ loc_dao L = Some dao
    /\ replaced w'
       = replaced w ++ [mkReplace (replace (js ".aragonid.eth") [] pathname)
                          search true].
Proof.
  intros (rest & Hparts)%segments_head Hv He.
  assert (reservedSegment dao = false) as Hr.
  { apply bool_decide_eq_false. rewrite !elem_of_cons.
    intros [->|[->|[->|[->|[]%elem_of_nil]]]]; done. }
  rewrite (parsePath_segments _ _ _ _ _ Hparts Hr), parseOrganization_run.
  eexists _, _. split; [done|]. unfold daoOf, redirectOf.
  rewrite Hv, He, andb_false_r. done.
Qed.

(** A text that does not include [".aragonid.eth"] is followed by its
    first occurrence. *)
Lemma cut_dot_aragonid a b :
  includes (js ".aragonid.eth") a = false ->
  cut (js ".aragonid.eth") (a ++ js ".aragonid.eth" ++ b) = Some (a, b).
Proof.
  induction a as [|x l IH]; intros Hl.
  { change ([] ++ ?t) with t. by rewrite cut_eq, startsWith_app, drop_app_length. }
  apply includes_cons_false in Hl as [Hx Hl].
  change ((x :: l) ++ ?t) with (x :: (l ++ t)).
  rewrite cut_eq, (IH Hl).
  destruct (startsWith (js ".aragonid.eth")
              (x :: l ++ js ".aragonid.eth" ++ b)) eqn:E; [|reflexivity].
  exfalso.
  change (x :: l ++ ?t) with ((x :: l) ++ t) in E.
  apply startsWith_app_inv in E as [E|(k & Hk & Hne & E)]; [congruence|].
  clear -Hk Hne E. vm_compute in Hk. injection Hk as _ Hk.
  repeat (destruct l as [|? l];
          [ cbn [app] in Hk; subst k; vm_compute in E; discriminate
          | try discriminate Hk; injection Hk as _ Hk ]).
  destruct l; cbn in Hk; [congruence|discriminate].
Qed.

(** When [".aragonid.eth"] first occurs at the end of the first segment,
    the replacement goes to the path with the short name. *)
Lemma parsePath_redirect_suffix first label rest search w :
  slashFree first = true -> forallb slashFree (label :: rest) = true ->
  includes (js ".aragonid.eth") (first ++ js "/" ++ label) = false ->
  isValidEnsName (label ++ js ".aragonid.eth") = true ->
  exists L w',
    parse browserHistory
      (first ++ joinPath ((label ++ js ".aragonid.eth") :: rest)) search w
    = (Ok L, w')
    /\ mode L = APP_MODE_ORG
    /\ loc_dao L = Some (label ++ js ".aragonid.eth")
    /\ replaced w'
       = replaced w ++ [mkReplace (first ++ joinPath (label :: rest)) search true].
Proof.
  intros Hf Hs Hinc Hv.
  cbn [forallb] in Hs. apply andb_prop in Hs as [Hl Hrest].
  assert (slashFree (label ++ js ".aragonid.eth") = true) as Hfull.
  { unfold slashFree in *. by rewrite lacks_app, Hl. }
  destruct (parsePath_redirect
              (first ++ joinPath ((label ++ js ".aragonid.eth") :: rest))
              search (label ++ js ".aragonid.eth") w)
    as (L & w' & Hrun & Hm & Hd & Hrep).
  - unfold segments. rewrite split_joinPath; [done..|]. cbn [forallb].
    by rewrite Hfull.
  - done.
  - unfold endsWith. change (js ".aragonid.eth") with (js "." ++ ARAGONID_ENS_DOMAIN).
    by rewrite app_assoc, rev_app_distr, startsWith_app.
  - exists L, w'. repeat split; try done. rewrite Hrep. do 3 f_equal.
    unfold replace.
    change (joinPath ((label ++ js ".aragonid.eth") :: rest))
      with (js "/" ++ (label ++ js ".aragonid.eth") ++ joinPath rest).
    replace (first ++ js "/" ++ (label ++ js ".aragonid.eth") ++ joinPath rest)
      with ((first ++ js "/" ++ label) ++ js ".aragonid.eth" ++ joinPath rest)
      by (by rewrite <- !app_assoc).
    rewrite cut_dot_aragonid by done.
    change (joinPath (label :: rest)) with (js "/" ++ label ++ joinPath rest).
    by rewrite <- !app_assoc.
Qed.

(** *** The path builder *)

(** The full name [label.aragonid.eth] is the first place where the
    domain occurs when the label does not include it. *)
Lemma cut_aragonid label :
  includes ARAGONID_ENS_DOMAIN label = false ->
  cut ARAGONID_ENS_DOMAIN (label ++ js "." ++ ARAGONID_ENS_DOMAIN)
  = Some (label ++ js ".", []).
Proof.
  induction label as [|x l IH]; intros Hl; [done|].
  apply includes_cons_false in Hl as [Hx Hl].
  change ((x :: l) ++ ?t) with (x :: (l ++ t)).
  rewrite cut_eq, (IH Hl).
  destruct (startsWith ARAGONID_ENS_DOMAIN
              (x :: l ++ js "." ++ ARAGONID_ENS_DOMAIN)) eqn:E; [|reflexivity].
  exfalso.
  change (x :: l ++ ?t) with ((x :: l) ++ t) in E.
  apply startsWith_app_inv in E as [E|(k & Hk & Hne & E)]; [congruence|].
  clear -Hk Hne E. vm_compute in Hk. injection Hk as _ Hk.
  repeat (destruct l as [|? l];
          [ cbn [app] in Hk; subst k; vm_compute in E; discriminate
          | try discriminate Hk; injection Hk as _ Hk ]).
  destruct l; cbn in Hk; [congruence|discriminate].
Qed.

Lemma indexOf_aragonid label :
  includes ARAGONID_ENS_DOMAIN label = false ->
  indexOf ARAGONID_ENS_DOMAIN (label ++ js "." ++ ARAGONID_ENS_DOMAIN)
  = (Z.of_nat (length label) + 1)%Z.
Proof.
  intros H. unfold indexOf. rewrite (cut_aragonid _ H), length_app.
  cbn [length js map list_ascii_of_string]. lia.
Qed.

(** The short form that [getAppPath] puts in the path. *)
Lemma getAppPath_full_name label instanceId params :
  includes ARAGONID_ENS_DOMAIN label = false ->
  staticApps !! instanceId = None ->
  build (mkAppPathArgs (Some (label ++ js ".aragonid.eth")) (Some instanceId) params)
  = match params with
    | Some (c :: p) =>
        (fun e => js "/" ++ label ++ js "/" ++ instanceId ++ js "?p=" ++ e)
          <$> encodeURIComponent (c :: p)
    | _ => Ok (js "/" ++ label ++ js "/" ++ instanceId ++ [])
    end.
Proof.
  intros Hl Hreg. unfold getAppPath. cbn [arg_dao arg_instanceId arg_params].
  change (js ".aragonid.eth") with (js "." ++ ARAGONID_ENS_DOMAIN).
  rewrite (indexOf_aragonid _ Hl).
  destruct (Z.ltb_spec (-1) (Z.of_nat (length label) + 1)) as [_|?]; [|lia].
  unfold substr0.
  replace (Z.to_nat (Z.of_nat (length label) + 1 - 1)) with (length label) by lia.
  rewrite take_app_length. cbn [default from_option id]. rewrite Hreg.
  destruct params as [[|c p]|]; cbn [truthy default from_option id]; try done.
  by destruct (encodeURIComponent (c :: p)).
Qed.

Lemma getAppPath_plain dao instanceId params :
  includes ARAGONID_ENS_DOMAIN dao = false ->
  staticApps !! instanceId = None ->
  build (mkAppPathArgs (Some dao) (Some instanceId) params)
  = match params with
    | Some (c :: p) =>
        (fun e => js "/" ++ dao ++ js "/" ++ instanceId ++ js "?p=" ++ e)
          <$> encodeURIComponent (c :: p)
    | _ => Ok (js "/" ++ dao ++ js "/" ++ instanceId ++ [])
    end.
Proof.
  intros Hl Hreg. unfold getAppPath. cbn [arg_dao arg_instanceId arg_params].
  unfold indexOf. rewrite (cut_absent _ _ Hl).
  cbn [default from_option id Z.ltb Z.compare]. rewrite Hreg.
  destruct params as [[|c p]|]; cbn [truthy default from_option id]; try done.
  by destruct (encodeURIComponent (c :: p)).
Qed.

(** *** From a path back to a locator *)

Lemma locationOf_pathname pathname :
  lacks 0x3F pathname = true -> lacks 0x23 pathname = true ->
  locationOf pathname = (pathname, []).
Proof.
  intros Hq Hh. unfold locationOf, cutAt.
  rewrite (cut_one_lacks 0x23 pathname Hh). cbn [fst].
  by rewrite (cut_one_lacks 0x3F pathname Hq).
Qed.

Lemma locationOf_search pathname e :
  lacks 0x3F pathname = true -> lacks 0x23 pathname = true ->
  lacks 0x23 e = true ->
  locationOf (pathname ++ js "?p=" ++ e) = (pathname, js "?p=" ++ e).
Proof.
  intros Hq Hh He. unfold locationOf, cutAt.
  rewrite (cut_one_lacks 0x23 (pathname ++ js "?p=" ++ e))
    by (by rewrite !lacks_app, Hh, He).
  cbn [fst]. change (js "?p=" ++ e) with ([0x3F] ++ (js "p=" ++ e)).
  by rewrite (cut_first 0x3F [] _ _ Hq).
Qed.

Lemma field_encoded e :
  lacks 0x3F e = true -> fieldAfterMarker (js "?p=") (js "?p=" ++ e) = Some e.
Proof.
  intros He. unfold fieldAfterMarker, textAfterMarker.
  change (js "?p=") with (0x3F :: js "p=").
  pose proof (cut_marker 0x3F (js "p=") [] e eq_refl eq_refl) as Hcut.
  change ([] ++ ?l) with l in Hcut. by rewrite Hcut, cut_lacks.
Qed.

(** Two segments make the pathname [/dao/instanceId]. *)
Lemma joinPath_two a b : js "/" ++ a ++ js "/" ++ b = [] ++ joinPath [a; b].
Proof. unfold joinPath. cbn [map concat]. by rewrite app_nil_r, <- !app_assoc. Qed.

(** What [encodeURIComponent] gives back is read by [parsePath] as the
    same params. *)
Lemma paramsOf_encoded p e :
  p <> [] -> isString p = true -> encodeURIComponent p = Ok e ->
  paramsOf (js "?p=" ++ e) = Some p /\ logOf (js "?p=" ++ e) = []
  /\ lacks 0x23 e = true.
Proof.
  intros Hne Hp He.
  pose proof (decode_encode _ _ Hp He) as Hd.
  pose proof (encode_safe _ _ Hp He) as Hs.
  pose proof (encode_nonempty _ _ Hp He Hne) as Hn.
  rewrite paramsOf_field, logOf_field, field_encoded
    by (by apply (safe_lacks 0x3F)).
  destruct e as [|c e]; [done|]. rewrite Hd.
  repeat split. by apply (safe_lacks 0x23).
Qed.

(** C1, as the code has it.  Take a locator whose [dao] is a valid
    address, or a label followed by [".aragonid.eth"] where the label is
    neither a valid address nor a valid ENS name; let the name as it goes
    in the path (the address, or the label) be a path segment that does
    not include ["aragonid.eth"] and is not one of the start and setup
    words; let [instanceId] be a non-empty path segment outside the
    static registry; let [params] be null or a non-empty well-formed
    string.  Then [getAppPath] returns a path, and [parsePath] on the
    location of that path returns an org-mode locator with the same
    [dao], [instanceId] and [params], without any effect. *)
Theorem getAppPath_parsePath_roundtrip history short dao instanceId params w :
  (isAddress dao = true /\ short = dao)
  \/ (isAddress short = false /\ isValidEnsName short = false
      /\ dao = short ++ js ".aragonid.eth") ->
  includes ARAGONID_ENS_DOMAIN short = false ->
  reservedSegment short = false ->
  pathSegment short = true ->
  pathSegment instanceId = true ->
  instanceId <> [] ->
  staticApps !! instanceId = None ->
  match params with
  | Some p => p <> [] /\ isString p = true /\ isWellFormed p = true
  | None => True
  end ->
  exists path pathname search L,
    build (mkAppPathArgs (Some dao) (Some instanceId) params) = Ok path
    /\ locationOf path = (pathname, search)
    /\ parse history pathname search w = (Ok L, w)
    /\ mode L = APP_MODE_ORG
    /\ loc_dao L = Some dao
    /\ loc_instanceId L = Some instanceId
    /\ loc_params L = params.
Proof.
  intros Hdao Hinc Hres Hshort Hinst Hne Hreg Hparams.
  unfold pathSegment in Hshort, Hinst.
  apply andb_prop in Hshort as [[Hs1 Hs2]%andb_prop Hs3].
  apply andb_prop in Hinst as [[Hi1 Hi2]%andb_prop Hi3].
  (* the path *)
  assert (build (mkAppPathArgs (Some dao) (Some instanceId) params)
          = match params with
            | Some (c :: p) =>
                (fun e => js "/" ++ short ++ js "/" ++ instanceId ++ js "?p=" ++ e)
                  <$> encodeURIComponent (c :: p)
            | _ => Ok (js "/" ++ short ++ js "/" ++ instanceId ++ [])
            end) as Hpath.
  { destruct Hdao as [[_ ->]|(_ & _ & ->)];
      [by apply getAppPath_plain | by apply getAppPath_full_name]. }
  (* the organization that the parser reads *)
  assert (nameOf short = dao
          /\ isValidEnsName short && endsWith ARAGONID_ENS_DOMAIN short = false)
    as [Hd Hquiet].
  { unfold daoOf. destruct Hdao as [[Ha ->]|(Ha & He & ->)].
    - rewrite Ha. split; [done|].
      destruct (endsWith _ _) eqn:E; [|by rewrite andb_false_r].
      apply endsWith_includes in E. congruence.
    - by rewrite Ha, He. }
  assert (lacks 0x3F (js "/" ++ short ++ js "/" ++ instanceId) = true
          /\ lacks 0x23 (js "/" ++ short ++ js "/" ++ instanceId) = true)
    as [Hq Hh].
  { by rewrite !lacks_app, Hs2, Hs3, Hi2, Hi3. }
  assert (forall search,
    parse history (js "/" ++ short ++ js "/" ++ instanceId) search w
    = (Ok (OrgLocator ((js "/" ++ short ++ js "/" ++ instanceId) ++ search)
             dao instanceId (paramsOf search) [] (parsePreferences search)),
       mkWorld (replaced w) (console w ++ logOf search))) as Hparse.
  { intros search. rewrite joinPath_two.
    rewrite parsePath_org, parseOrganization_quiet, Hd;
      [|done..|cbn [forallb]; unfold slashFree; by rewrite Hs1, Hi1|done].
    by destruct instanceId. }
  destruct params as [[|c p]|].
  - by destruct Hparams.
  - destruct Hparams as (Hpne & Hstr & Hwf).
    destruct (encode_wellFormed _ Hwf) as [e He].
    destruct (paramsOf_encoded _ _ Hpne Hstr He) as (Hpo & Hlo & Heh).
    exists (js "/" ++ short ++ js "/" ++ instanceId ++ js "?p=" ++ e),
      (js "/" ++ short ++ js "/" ++ instanceId), (js "?p=" ++ e).
    eexists. split; [by rewrite Hpath, He|].
    split.
    { rewrite <- (locationOf_search _ e Hq Hh Heh). f_equal.
      by rewrite <- !app_assoc. }
    rewrite Hparse, Hpo, Hlo, app_nil_r. by destruct w.
  - exists (js "/" ++ short ++ js "/" ++ instanceId ++ []),
      (js "/" ++ short ++ js "/" ++ instanceId), [].
    eexists. split; [done|]. rewrite !app_nil_r.
    split; [by apply locationOf_pathname|].
    rewrite Hparse. change (paramsOf []) with (@None str).
    change (logOf []) with (@nil str). rewrite !app_nil_r. by destruct w.
Qed.

End RoutingFacts.

Section Examples.
Import JS JSFacts.

#[local] Abbreviation parse := (parsePath Web3Utils.isAddress Web3Utils.isValidEnsName).

(** ["/setup/2/foo"] is the second step of the setup wizard. *)
Lemma parsePath_setup_example :
  parse browserHistory (js "/setup/2/foo") (js "") quietWorld
  = (Ok (SetupLocator (js "/setup/2/foo") (Some (js "2")) [js "foo"]), quietWorld).
Proof.
  exact (parsePath_setup Web3Utils.isAddress Web3Utils.isValidEnsName browserHistory
           (js "") [js "2"; js "foo"] (js "") quietWorld eq_refl eq_refl).
Defined.

(** ["/mydao"] is the home of [mydao.aragonid.eth]. *)
Lemma parsePath_bare_label_example :
  exists L w',
    parse browserHistory (js "/mydao") (js "") quietWorld = (Ok L, w')
    /\ mode L = APP_MODE_ORG
    /\ loc_dao L = Some (js "mydao.aragonid.eth")
    /\ loc_instanceId L = Some (js "home")
    /\ replaced w' = [].
Proof.
  exact (parsePath_bare_label Web3Utils.isAddress Web3Utils.isValidEnsName
           browserHistory (js "") (js "mydao") [] (js "") quietWorld
           eq_refl eq_refl eq_refl eq_refl eq_refl).
Defined.

(** ["/mydao//x"]: an empty second segment gives ["home"]. *)
Lemma parsePath_instanceId_example :
  parse browserHistory (js "/mydao//x") (js "") quietWorld
  = (Ok (OrgLocator (js "/mydao//x") (js "mydao.aragonid.eth") (js "home")
           None [js "x"] (mkPreferences (Some []) ∅)), quietWorld)
  /\ exists instanceId,
    Some (js "home") = Some instanceId /\ instanceId <> []
    /\ instanceId = js "home".
Proof.
  split; [reflexivity|].
  exact (parsePath_instanceId_nonempty Web3Utils.isAddress Web3Utils.isValidEnsName
           browserHistory (js "/mydao//x") (js "") quietWorld
           (OrgLocator (js "/mydao//x") (js "mydao.aragonid.eth") (js "home")
              None [js "x"] (mkPreferences (Some []) ∅))
           quietWorld eq_refl eq_refl).
Defined.

(** ["?p=a%20b?p=c"]: the params are ["a b"]. *)
Lemma parsePath_decodes_params_example :
  exists L w',
    parse browserHistory (js "/mydao/voting") (js "?p=a%20b?p=c") quietWorld
    = (Ok L, w')
    /\ mode L = APP_MODE_ORG
    /\ loc_params L = Some (js "a b").
Proof.
  exact (parsePath_decodes_params Web3Utils.isAddress Web3Utils.isValidEnsName
           (js "/mydao/voting") (js "?p=a%20b?p=c") (js "mydao") quietWorld
           eq_refl eq_refl).
Defined.

(** C3 in the words of the specification fails on ["?p=a?p=b"]:
    everything after the first marker is ["a?p=b"], which decodes to
    itself, and the params are ["a"]. *)
Lemma parsePath_params_not_all_after :
  textAfterMarker (js "?p=") (js "?p=a?p=b") = Some (js "a?p=b")
  /\ decodeURIComponent (js "a?p=b") = Ok (js "a?p=b")
  /\ exists L w',
       parse browserHistory (js "/mydao") (js "?p=a?p=b") quietWorld = (Ok L, w')
       /\ loc_params L = Some (js "a")
       /\ loc_params L <> Some (js "a?p=b").
Proof.
  split; [reflexivity|]. split; [reflexivity|].
  eexists _, _. split; [reflexivity|]. split; [reflexivity|]. discriminate.
Qed.

(** ["%E0%A4%A"] breaks off in the middle of an escape. *)
Lemma parsePath_malformed_params_example :
  exists L w' L0 w0,
    parse browserHistory (js "/mydao/voting") (js "?p=%E0%A4%A") quietWorld
    = (Ok L, w')
    /\ parse browserHistory (js "/mydao/voting") (js "") quietWorld = (Ok L0, w0)
    /\ mode L = APP_MODE_ORG
    /\ loc_params L = None
    /\ loc_params L0 = None
    /\ loc_dao L = loc_dao L0
    /\ loc_instanceId L = loc_instanceId L0
    /\ loc_parts L = loc_parts L0
    /\ loc_path L = js "/mydao/voting" ++ js "?p=%E0%A4%A"
    /\ loc_preferences L = Some (parsePreferences (js "?p=%E0%A4%A"))
    /\ console w' = console quietWorld ++ [PARAMS_NOT_VALID].
Proof.
  exact (parsePath_malformed_params Web3Utils.isAddress Web3Utils.isValidEnsName
           (js "/mydao/voting") (js "?p=%E0%A4%A") (js "mydao")
           (js "%E0%A4%A") URIError quietWorld eq_refl eq_refl eq_refl eq_refl).
Defined.

(** C4 in the words of the specification fails on ["?p=a?p=%"]: the text
    after the first marker, ["a?p=%"], has an invalid percent-encoding
    and does not decode, yet the params are ["a"], not null, and nothing
    is logged: what follows the second marker is never decoded. *)
Lemma parsePath_malformed_after_second_marker :
  textAfterMarker (js "?p=") (js "?p=a?p=%") = Some (js "a?p=%")
  /\ decodeURIComponent (js "a?p=%") = Throw URIError
  /\ decodeURIComponent (js "%") = Throw URIError
  /\ exists L w',
       parse browserHistory (js "/mydao") (js "?p=a?p=%") quietWorld = (Ok L, w')
       /\ mode L = APP_MODE_ORG
       /\ loc_params L = Some (js "a")
       /\ loc_params L <> None
       /\ console w' = console quietWorld.
Proof.
  split; [reflexivity|]. split; [reflexivity|]. split; [reflexivity|].
  eexists _, _. split; [reflexivity|]. split; [reflexivity|].
  split; [reflexivity|]. split; [discriminate|reflexivity].
Qed.

(** An address, the voting app and JSON params. *)
Lemma parsePath_address_example :
  parse browserHistory (js "/" ++ exampleAddress ++ js "/voting")
    (js "?p=%7B%22a%22%3A1%7D") quietWorld
  = (Ok (OrgLocator
           (js "/" ++ exampleAddress ++ js "/voting?p=%7B%22a%22%3A1%7D")
           exampleAddress (js "voting")
           (Some (js "{" ++ [0x22] ++ js "a" ++ [0x22] ++ js ":1}")) []
           (mkPreferences (Some (js "")) ∅)),
     quietWorld).
Proof. reflexivity. Qed.

(** C2 at ["/x.aragonid.eth.b.aragonid.eth"]: the first segment is a
    valid ENS name that ends with ["aragonid.eth"], and the handle is
    asked once for a replacement, but the suffix is not what is taken
    out: the replacement goes to ["/x.b.aragonid.eth"], not to
    ["/x.aragonid.eth.b"]. *)
Theorem parsePath_redirect_first_occurrence :
  Web3Utils.isValidEnsName (js "x.aragonid.eth.b.aragonid.eth") = true
  /\ endsWith (js "aragonid.eth") (js "x.aragonid.eth.b.aragonid.eth") = true
  /\ parse browserHistory (js "/x.aragonid.eth.b.aragonid.eth") (js "") quietWorld
     = (Ok (OrgLocator (js "/x.aragonid.eth.b.aragonid.eth")
              (js "x.aragonid.eth.b.aragonid.eth") (js "home") None []
              (mkPreferences (Some (js "")) ∅)),
        mkWorld [mkReplace (js "/x.b.aragonid.eth") (js "") true] [])
  /\ dropSuffix (js ".aragonid.eth") (js "/x.aragonid.eth.b.aragonid.eth")
     = js "/x.aragonid.eth.b".
Proof. repeat split. Qed.

(** ["/mydao.aragonid.eth"] is replaced by ["/mydao"]. *)
Lemma parsePath_redirect_example :
  parse browserHistory (js "/mydao.aragonid.eth") (js "") quietWorld
  = (Ok (OrgLocator (js "/mydao.aragonid.eth") (js "mydao.aragonid.eth")
           (js "home") None [] (mkPreferences (Some (js "")) ∅)),
     mkWorld [mkReplace (js "/mydao") (js "") true] []).
Proof. reflexivity. Qed.

#[local] Abbreviation build := (getAppPath exampleStaticApps).

(** [mydao.aragonid.eth], the voting app, and params with an accented
    letter and a character outside the basic plane. *)
Lemma getAppPath_parsePath_roundtrip_example :
  exists path pathname search L,
    build (mkAppPathArgs (Some (js "mydao.aragonid.eth")) (Some (js "voting"))
             (Some (js "{a:1} " ++ [0xE9; 0xD83D; 0xDE00]))) = Ok path
    /\ locationOf path = (pathname, search)
    /\ parse browserHistory pathname search quietWorld = (Ok L, quietWorld)
    /\ mode L = APP_MODE_ORG
    /\ loc_dao L = Some (js "mydao.aragonid.eth")
    /\ loc_instanceId L = Some (js "voting")
    /\ loc_params L = Some (js "{a:1} " ++ [0xE9; 0xD83D; 0xDE00]).
Proof.
  apply (getAppPath_parsePath_roundtrip Web3Utils.isAddress Web3Utils.isValidEnsName
           exampleStaticApps browserHistory (js "mydao")).
  - right. repeat split; reflexivity.
  - reflexivity.
  - reflexivity.
  - reflexivity.
  - reflexivity.
  - discriminate.
  - reflexivity.
  - repeat split; [discriminate|reflexivity..].
Defined.

(** C1 in the words of the specification fails: the empty string comes
    back as null; a string with an unpaired surrogate has no path at all;
    an [instanceId] with a slash comes back cut short; and a bare label
    comes back with the domain. *)
Lemma getAppPath_parsePath_not_roundtrip :
  Web3Utils.isAddress exampleAddress = true
  /\ exampleStaticApps !! js "voting" = None
  /\ exampleStaticApps !! js "a/b" = None
  /\ (build (mkAppPathArgs (Some exampleAddress) (Some (js "voting")) (Some (js "")))
      = Ok (js "/" ++ exampleAddress ++ js "/voting")
      /\ locationOf (js "/" ++ exampleAddress ++ js "/voting")
         = (js "/" ++ exampleAddress ++ js "/voting", js "")
      /\ exists L w',
           parse browserHistory (js "/" ++ exampleAddress ++ js "/voting") (js "")
             quietWorld = (Ok L, w')
           /\ loc_params L = None /\ loc_params L <> Some (js ""))
  /\ build (mkAppPathArgs (Some exampleAddress) (Some (js "voting")) (Some [0xD800]))
     = Throw URIError
  /\ (build (mkAppPathArgs (Some exampleAddress) (Some (js "a/b")) None)
      = Ok (js "/" ++ exampleAddress ++ js "/a/b")
      /\ locationOf (js "/" ++ exampleAddress ++ js "/a/b")
         = (js "/" ++ exampleAddress ++ js "/a/b", js "")
      /\ exists L w',
           parse browserHistory (js "/" ++ exampleAddress ++ js "/a/b") (js "")
             quietWorld = (Ok L, w')
           /\ loc_instanceId L = Some (js "a")
           /\ loc_instanceId L <> Some (js "a/b"))
  /\ (Web3Utils.isAddress (js "mydao") = false
      /\ Web3Utils.isValidEnsName (js "mydao") = false
      /\ build (mkAppPathArgs (Some (js "mydao")) (Some (js "voting")) None)
         = Ok (js "/mydao/voting")
      /\ locationOf (js "/mydao/voting") = (js "/mydao/voting", js "")
      /\ exists L w',
           parse browserHistory (js "/mydao/voting") (js "") quietWorld
           = (Ok L, w')
           /\ loc_dao L = Some (js "mydao.aragonid.eth")
           /\ loc_dao L <> Some (js "mydao")).
Proof.
  repeat split; try reflexivity;
    eexists _, _; (split; [reflexivity|]); (split; [reflexivity|]); discriminate.
Qed.

End Examples.

(** * Further properties *)

(** ** More on the URI built-ins *)

Module URIMore.
Import JS JSFacts URIFacts.

#[local] Ltac Zify.zify_post_hook ::= Z.to_euclidean_division_equations.

(** An unpaired surrogate makes [encodeURIComponent] throw. *)
Lemma encode_illFormed_fuel n : forall s,
  (length s <= n)%nat -> isWellFormed s = false ->
  encodeURIComponent s = Throw URIError.
Proof.
  induction n as [|n IH]; intros [|c r] Hlen Hwf;
    try (simpl in Hlen; lia); try done.
  simpl in Hlen. cbn [encodeURIComponent isWellFormed] in *.
  destruct (isLeadingSurrogate c) eqn:Hl.
  - assert (uriUnescaped c = false) as ->.
    { unfold uriUnescaped, isLeadingSurrogate in *. arith. lia. }
    destruct r as [|d r']; [done|].
    destruct (isTrailingSurrogate d); [|done]. simpl in Hlen, Hwf.
    by rewrite (IH r') by (done || lia).
  - destruct (isTrailingSurrogate c) eqn:Ht.
    + assert (uriUnescaped c = false) as ->; [|done].
      unfold uriUnescaped, isTrailingSurrogate in *. arith. lia.
    + simpl in Hwf. rewrite (IH r) by (done || lia).
      by destruct (uriUnescaped c).
Qed.

Lemma encode_illFormed s :
  isWellFormed s = false -> encodeURIComponent s = Throw URIError.
Proof. by apply (encode_illFormed_fuel (length s)). Qed.

(** The escaped text of [s], followed by any text, decodes to [s]
    followed by what that text decodes to. *)
Lemma decode_encoded_app_fuel n : forall s e t,
  (length s <= n)%nat -> isString s = true ->
  encodeURIComponent s = Ok e ->
  decodeURIComponent (e ++ t) = app s <$> decodeURIComponent t.
Proof.
  induction n as [|n IH]; intros [|c r] e t Hlen Hstr Henc;
    try (simpl in Hlen; lia).
  { injection Henc as <-. change ([] ++ t) with t.
    by destruct (decodeURIComponent t). }
  { injection Henc as <-. change ([] ++ t) with t.
    by destruct (decodeURIComponent t). }
  apply isString_cons in Hstr as [Hc Hr]. simpl in Hlen.
  cbn [encodeURIComponent] in Henc.
  destruct (uriUnescaped c) eqn:Hu.
  { apply fmap_Ok_inv in Henc as (e' & He' & ->).
    change ((c :: e') ++ t) with (c :: (e' ++ t)).
    rewrite decode_plain by by apply unescaped_not_percent.
    rewrite (IH r e' t) by (done || lia).
    by destruct (decodeURIComponent t). }
  destruct (isLeadingSurrogate c) eqn:Hl.
  { destruct r as [|d r']; [done|].
    destruct (isTrailingSurrogate d) eqn:Ht; [|done].
    apply fmap_Ok_inv in Henc as (e' & He' & ->).
    apply isString_cons in Hr as [Hd Hr']. simpl in Hlen.
    destruct (utf16_pair c d Hl Ht) as [Hcp Hpair].
    rewrite <- app_assoc, decode_escaped, Hpair by lia.
    rewrite (IH r' e' t) by (done || lia).
    by destruct (decodeURIComponent t). }
  destruct (isTrailingSurrogate c) eqn:Ht; [done|].
  apply fmap_Ok_inv in Henc as (e' & He' & ->).
  assert (~ (0xD800 <= c <= 0xDFFF)) as Hsur.
  { unfold isLeadingSurrogate, isTrailingSurrogate in *. arith. lia. }
  rewrite <- app_assoc, decode_escaped by lia.
  rewrite (IH r e' t) by (done || lia).
  unfold utf16EncodeCodePoint. destruct (N.ltb_spec c 0x10000); [|lia].
  by destruct (decodeURIComponent t).
Qed.

(** A text without ["%"] decodes to itself. *)
Lemma decode_plain_text t :
  lacks 0x25 t = true -> decodeURIComponent t = Ok t.
Proof.
  induction t as [|c t IH]; [done|].
  rewrite lacks_cons. intros [Hc Ht]%andb_prop. apply negb_true_iff in Hc.
  by rewrite decode_plain, (IH Ht).
Qed.

(** What a non-empty text decodes to is not empty. *)
Lemma decode_nonempty c r p :
  decodeURIComponent (c :: r) = Ok p -> p <> [].
Proof.
  cbn [decodeURIComponent].
  destruct (negb (c =? 0x25)).
  { by intros (p' & _ & ->)%fmap_Ok_inv. }
  destruct r as [|h1 [|h2 r1]]; try done.
  destruct (hexOctet h1 h2) as [b1|]; [|done].
  assert (forall cp x, app (utf16EncodeCodePoint cp) <$> x = Ok p -> p <> [])
    as Hcp.
  { intros cp x (p' & _ & ->)%fmap_Ok_inv. unfold utf16EncodeCodePoint.
    by destruct (cp <? 0x10000). }
  destruct (b1 <? 0x80).
  { by intros (p' & _ & ->)%fmap_Ok_inv. }
  destruct (b1 <? 0xC0); [done|].
  destruct (b1 <? 0xE0).
  { destruct r1 as [|p2 [|x1 [|x2 r2]]]; try done.
    destruct (escapeOctet p2 x1 x2); [|done].
    destruct (utf8Decode2 _ _); [|done]. apply Hcp. }
  destruct (b1 <? 0xF0).
  { destruct r1 as [|p2 [|x1 [|x2 [|p3 [|y1 [|y2 r3]]]]]]; try done.
    destruct (escapeOctet p2 x1 x2); [|done].
    destruct (escapeOctet p3 y1 y2); [|done].
    destruct (utf8Decode3 _ _ _); [|done]. apply Hcp. }
  destruct (b1 <? 0xF8); [|done].
  destruct r1 as [|p2 [|x1 [|x2 [|p3 [|y1 [|y2 [|p4 [|z1 [|z2 r4]]]]]]]]];
    try done.
  destruct (escapeOctet p2 x1 x2); [|done].
  destruct (escapeOctet p3 y1 y2); [|done].
  destruct (escapeOctet p4 z1 z2); [|done].
  destruct (utf8Decode4 _ _ _ _); [|done]. apply Hcp.
Qed.

End URIMore.

(** ** More on the locator parser *)

Section RoutingMore.
Import JS JSFacts URIFacts URIMore.

Variable isAddress : str -> bool.
Variable isValidEnsName : str -> bool.
Variable staticApps : gmap str StaticApp.

#[local] Abbreviation parse := (parsePath isAddress isValidEnsName).
#[local] Abbreviation build := (getAppPath staticApps).
#[local] Abbreviation organization := (parseOrganization isAddress isValidEnsName).
#[local] Abbreviation nameOf := (daoOf isAddress isValidEnsName).
#[local] Abbreviation redirects := (redirectOf isAddress isValidEnsName).

(** X1: on a pathname whose first segment is missing, empty, ["open"],
    ["create"] or ["setup"], [parsePath] returns a start or setup locator
    and does nothing else: the navigation handle is not called, whatever
    it would do, and nothing is logged. *)
Theorem parsePath_quiet_outside_organizations history pathname search w :
  from_option reservedSegment true (segments pathname !! 0%nat) = true ->
  exists L,
    parse history pathname search w = (Ok L, w)
    /\ mode L <> APP_MODE_ORG
    /\ loc_path L = pathname ++ search.
Proof.
  unfold segments, parsePath.
  destruct (tail (split (js "/") pathname)) as [|seg rest]; [by eexists|].
  cbn [lookup list_lookup from_option].
  intros Hr%bool_decide_eq_true. rewrite !elem_of_cons in Hr.
  destruct Hr as [->|[->|[->|[->|[]%elem_of_nil]]]]; by eexists.
Qed.

(** X2: [parsePath] throws only what the navigation handle throws: with
    a handle whose [replace] returns, it returns a locator on every
    pathname and search string. *)
Theorem parsePath_returns_when_replace_returns history pathname search w :
  (forall args w0, exists w1, history_replace history args w0 = (Ok tt, w1)) ->
  exists L w',
    parsePath isAddress isValidEnsName history pathname search w = (Ok L, w').
Proof.
  intros Hh.
  destruct (tail (split (js "/") pathname)) as [|dao rest] eqn:Hparts.
  { unfold parsePath. rewrite Hparts. by eexists _, _. }
  destruct (reservedSegment dao) eqn:Hr.
  - apply bool_decide_eq_true in Hr.
    unfold parsePath. rewrite Hparts.
    rewrite !elem_of_cons in Hr.
    destruct Hr as [->|[->|[->|[->|[]%elem_of_nil]]]]; by eexists _, _.
  - rewrite (parsePath_segments _ _ _ _ _ _ _ Hparts Hr).
    unfold parseOrganization. rewrite bind_run.
    destruct (negb (isAddress dao) && negb (isValidEnsName dao)).
    { cbn [mret M_ret]. rewrite bind_run, params_run. by eexists _, _. }
    destruct (isValidEnsName dao && endsWith ARAGONID_ENS_DOMAIN dao).
    + rewrite bind_run.
      destruct (Hh (mkReplace (replace (js "." ++ ARAGONID_ENS_DOMAIN) [] pathname)
                      search true) w) as [w1 ->].
      cbn [mret M_ret]. rewrite bind_run, params_run. by eexists _, _.
    + cbn [mret M_ret]. rewrite bind_run, params_run. by eexists _, _.
Qed.

(** X3: one call of [parsePath] asks for at most one replacement and
    logs at most one line; a replacement keeps the search string and
    carries the [alreadyParsed] flag; the locator's [path] is the
    pathname followed by the search string. *)
Theorem parsePath_effects_bounded pathname search w :
  exists L w' requests lines,
    parse browserHistory pathname search w = (Ok L, w')
    /\ loc_path L = pathname ++ search
    /\ replaced w' = replaced w ++ requests
    /\ console w' = console w ++ lines
    /\ (length requests <= 1)%nat /\ (length lines <= 1)%nat
    /\ Forall (fun r => r_search r = search /\ r_alreadyParsed r = true) requests.
Proof.
  destruct (tail (split (js "/") pathname)) as [|dao rest] eqn:Hparts.
  { unfold parsePath. rewrite Hparts. eexists _, _, [], [].
    rewrite !app_nil_r. repeat split; by auto. }
  destruct (reservedSegment dao) eqn:Hr.
  - apply bool_decide_eq_true in Hr.
    unfold parsePath. rewrite Hparts.
    rewrite !elem_of_cons in Hr.
    destruct Hr as [->|[->|[->|[->|[]%elem_of_nil]]]];
      eexists _, _, [], []; rewrite !app_nil_r; repeat split; by auto.
  - rewrite (parsePath_segments _ _ _ _ _ _ _ Hparts Hr), parseOrganization_run.
    eexists _, _, _, _. repeat split.
    + unfold redirectOf. repeat case_match; simpl; lia.
    + unfold logOf. repeat case_match; simpl; lia.
    + unfold redirectOf. repeat case_match; by repeat constructor.
Qed.

(** X5: a first segment that is a valid address or a valid ENS name is
    the locator's [dao] as it stands, and the segments after the second
    are its [parts]. *)
Theorem parsePath_valid_name_kept first dao rest search w :
  slashFree first = true -> forallb slashFree (dao :: rest) = true ->
  reservedSegment dao = false ->
  isAddress dao || isValidEnsName dao = true ->
  exists L w',
    parse browserHistory (first ++ joinPath (dao :: rest)) search w = (Ok L, w')
    /\ mode L = APP_MODE_ORG
    /\ loc_dao L = Some dao
    /\ loc_parts L = drop 1 rest.
Proof.
  intros Hf Hs Hr Hv.
  rewrite parsePath_org, parseOrganization_run by done.
  eexists _, _. repeat split. cbn [loc_dao]. unfold daoOf.
  by destruct (isAddress dao), (isValidEnsName dao).
Qed.

(** A locator of the organization branch has the params that the search
    string decodes to, whatever the handle does. *)
Lemma parseOrganization_params history pathname search dao rest w L w' :
  organization history pathname search dao rest w = (Ok L, w') ->
  loc_params L = paramsOf search.
Proof.
  unfold parseOrganization.
  intros (dao' & w1 & _ & (params & w2 & Hp & [= <- _])%bind_Ok_inv)%bind_Ok_inv.
  rewrite params_run in Hp. by injection Hp as <- _.
Qed.

(** X6: the [params] of a locator are null or a non-empty string, never
    the empty string. *)
Theorem parsePath_params_never_empty history pathname search w L w' :
  parse history pathname search w = (Ok L, w') ->
  loc_params L <> Some [].
Proof.
  destruct (tail (split (js "/") pathname)) as [|dao rest] eqn:Hparts.
  { unfold parsePath. rewrite Hparts. by intros [= <- _]. }
  destruct (reservedSegment dao) eqn:Hr.
  - apply bool_decide_eq_true in Hr.
    unfold parsePath. rewrite Hparts.
    rewrite !elem_of_cons in Hr.
    destruct Hr as [->|[->|[->|[->|[]%elem_of_nil]]]]; by intros [= <- _].
  - rewrite (parsePath_segments _ _ _ _ _ _ _ Hparts Hr).
    intros ->%parseOrganization_params. unfold paramsOf.
    destruct (rawParamsOf search) as [[|c r]|]; try done.
    cbn [truthy default from_option id].
    destruct (decodeURIComponent (c :: r)) as [p|e] eqn:Hd; [|done].
    apply decode_nonempty in Hd. congruence.
Qed.

(** *** The replacement path *)

Lemma replace_suffix first label rest :
  includes (js ".aragonid.eth") (first ++ js "/" ++ label) = false ->
  replace (js "." ++ ARAGONID_ENS_DOMAIN) []
    (first ++ joinPath ((label ++ js ".aragonid.eth") :: rest))
  = first ++ joinPath (label :: rest).
Proof.
  intros Hinc. unfold replace.
  change (js "." ++ ARAGONID_ENS_DOMAIN) with (js ".aragonid.eth").
  change (joinPath ((label ++ js ".aragonid.eth") :: rest))
    with (js "/" ++ (label ++ js ".aragonid.eth") ++ joinPath rest).
  replace (first ++ js "/" ++ (label ++ js ".aragonid.eth") ++ joinPath rest)
    with ((first ++ js "/" ++ label) ++ js ".aragonid.eth" ++ joinPath rest)
    by (by rewrite <- !app_assoc).
  rewrite (cut_dot_aragonid _ _ Hinc).
  change (joinPath (label :: rest)) with (js "/" ++ label ++ joinPath rest).
  by rewrite <- !app_assoc.
Qed.

(** X4: the replacement leads to the same organization.  When the first
    segment is [label.aragonid.eth], a valid ENS name, and the label
    alone is neither reserved nor a valid address or ENS name, the path
    that [parsePath] asks the handle to put in place parses to a locator
    with the same [dao], [instanceId], [params], [parts] and
    [preferences], and asks for no further replacement. *)
Theorem parsePath_replacement_stable first label rest search w :
  slashFree first = true -> forallb slashFree (label :: rest) = true ->
  includes (js ".aragonid.eth") (first ++ js "/" ++ label) = false ->
  isValidEnsName (label ++ js ".aragonid.eth") = true ->
  reservedSegment label = false ->
  isAddress label = false -> isValidEnsName label = false ->
  exists L w1 target L' w2,
    parse browserHistory
      (first ++ joinPath ((label ++ js ".aragonid.eth") :: rest)) search w
    = (Ok L, w1)
    /\ replaced w1 = replaced w ++ [mkReplace target search true]
    /\ parse browserHistory target search w1 = (Ok L', w2)
    /\ replaced w2 = replaced w1
    /\ mode L' = APP_MODE_ORG
    /\ loc_dao L' = loc_dao L
    /\ loc_instanceId L' = loc_instanceId L
    /\ loc_params L' = loc_params L
    /\ loc_parts L' = loc_parts L
    /\ loc_preferences L' = loc_preferences L.
Proof.
  intros Hf Hs Hinc Hv Hres Ha He.
  assert (forallb slashFree ((label ++ js ".aragonid.eth") :: rest) = true)
    as Hs'.
  { cbn [forallb] in *. apply andb_prop in Hs as [Hl ->].
    unfold slashFree in *. by rewrite lacks_app, Hl. }
  assert (reservedSegment (label ++ js ".aragonid.eth") = false) as Hres'.
  { apply bool_decide_eq_false. rewrite !elem_of_cons.
    intros [H|[H|[H|[H|[]%elem_of_nil]]]];
      apply (f_equal (endsWith ARAGONID_ENS_DOMAIN)) in H;
      change (js ".aragonid.eth") with (js "." ++ ARAGONID_ENS_DOMAIN) in H;
      unfold endsWith in H;
      rewrite app_assoc, rev_app_distr, startsWith_app in H; done. }
  assert (endsWith ARAGONID_ENS_DOMAIN (label ++ js ".aragonid.eth") = true)
    as Hends.
  { unfold endsWith. change (js ".aragonid.eth") with (js "." ++ ARAGONID_ENS_DOMAIN).
    by rewrite app_assoc, rev_app_distr, startsWith_app. }
  exists (OrgLocator
            ((first ++ joinPath ((label ++ js ".aragonid.eth") :: rest)) ++ search)
            (label ++ js ".aragonid.eth")
            (if truthy (rest !! 0%nat) then default [] (rest !! 0%nat) else js "home")
            (paramsOf search) (drop 1 rest) (parsePreferences search)).
  eexists _, (first ++ joinPath (label :: rest)), _, _.
  split.
  { rewrite parsePath_org, parseOrganization_run by done.
    unfold daoOf, redirectOf. rewrite Hv, Hends, andb_false_r.
    cbn [andb]. rewrite replace_suffix by done. reflexivity. }
  split; [done|].
  split.
  { rewrite parsePath_org, parseOrganization_run by done.
    unfold daoOf, redirectOf. rewrite Ha, He. cbn [negb andb]. reflexivity. }
  cbn [replaced]. rewrite app_nil_r. done.
Qed.

(** *** Params and preferences in one search string *)

Lemma cut_later sep x s :
  startsWith sep (x :: s) = false ->
  cut sep (x :: s)
  = match cut sep s with
    | Some (a, b) => Some (x :: a, b)
    | None => None
    end.
Proof. intros H. by rewrite cut_eq, H. Qed.

Lemma cut_skip c sep a b :
  lacks c a = true ->
  cut (c :: sep) (a ++ b)
  = match cut (c :: sep) b with
    | Some (x, y) => Some (a ++ x, y)
    | None => None
    end.
Proof.
  induction a as [|x a IH].
  { intros _. change ([] ++ b) with b. by destruct (cut (c :: sep) b) as [[??]|]. }
  rewrite lacks_cons. intros [Hx Ha]%andb_prop. apply negb_true_iff in Hx.
  change ((x :: a) ++ b) with (x :: (a ++ b)).
  rewrite cut_eq, (startsWith_first _ _ _ _ Hx), (IH Ha).
  by destruct (cut (c :: sep) b) as [[??]|].
Qed.

(** X7: when the search string holds both the params and the
    preferences, [?p=<escaped>?preferences=/<path>], the preferences are
    read as such, and they are also part of the params: [parsePath]
    returns the decoded params followed by the whole preferences query. *)
Theorem parsePath_params_hold_preferences pathname dao p e path w :
  segments pathname !! 0%nat = Some dao ->
  reservedSegment dao = false ->
  isString p = true -> encodeURIComponent p = Ok e ->
  lacks 0x25 path = true -> lacks 0x3F path = true -> lacks 0x26 path = true ->
  exists L w',
    parse browserHistory pathname
      (js "?p=" ++ e ++ js "?preferences=/" ++ path) w = (Ok L, w')
    /\ loc_params L = Some (p ++ js "?preferences=/" ++ path)
    /\ loc_preferences L = Some (mkPreferences (Some path) ∅).
Proof.
  intros (rest & Hparts)%segments_head Hr Hp He H25 H3F H26.
  pose proof (encode_safe _ _ Hp He) as Hsafe.
  assert (lacks 0x3F e = true) as Hq by by apply safe_lacks.
  rewrite (parsePath_segments _ _ _ _ _ _ _ Hparts Hr), parseOrganization_run.
  eexists _, _. split; [done|]. cbn [loc_params loc_preferences].
  split.
  - rewrite paramsOf_field. unfold fieldAfterMarker, textAfterMarker.
    change (js "?p=") with (0x3F :: js "p=").
    pose proof (cut_marker 0x3F (js "p=") [] (e ++ js "?preferences=/" ++ path)
                  eq_refl eq_refl) as Hcut.
    change ([] ++ ?l) with l in Hcut. rewrite Hcut.
    assert (cut (0x3F :: js "p=") (js "?preferences=/" ++ path) = None)
      as Hnone.
    { change (js "?preferences=/" ++ path)
        with (0x3F :: (js "preferences=/" ++ path)).
      rewrite cut_later by done.
      by rewrite cut_lacks by (by rewrite lacks_app, H3F). }
    rewrite (cut_skip _ _ _ _ Hq), Hnone.
    assert (exists c r, e ++ js "?preferences=/" ++ path = c :: r)
      as (c & r & Hraw) by (destruct e; by eexists _, _).
    rewrite Hraw, <- Hraw.
    rewrite (decode_encoded_app_fuel (length p) p e) by done.
    by rewrite decode_plain_text by (by rewrite lacks_app, H25).
  - f_equal.
    change (js "?p=" ++ e ++ js "?preferences=/" ++ path)
      with ((js "?p=" ++ e) ++ js "?preferences=/" ++ path).
    apply PreferencesFacts.parsePreferences_no_labels.
    + unfold includes, GLOBAL_PREFERENCES_QUERY_PARAM.
      change (js "?preferences=/") with (0x3F :: js "preferences=/").
      change (js "?p=" ++ e) with (0x3F :: (js "p=" ++ e)).
      rewrite cut_later by done.
      by rewrite cut_lacks by (by rewrite lacks_app, Hq).
    + unfold includes, GLOBAL_PREFERENCES_QUERY_PARAM.
      change (js "?preferences=/") with (0x3F :: js "preferences=/").
      by rewrite cut_lacks.
    + unfold includes, GLOBAL_PREFERENCES_SHARE_LINK_QUERY_VAR.
      change (js "&labels=") with (0x26 :: js "labels=").
      by rewrite cut_lacks.
Qed.

(** *** More on the path builder *)

(** With a [dao], the only thing that can fail is the encoding of the
    params. *)
Lemma getAppPath_with_dao dao instanceId params :
  (build (mkAppPathArgs (Some dao) instanceId params) = Throw URIError
   /\ exists p, params = Some p /\ isWellFormed p = false)
  \/ ((exists path, build (mkAppPathArgs (Some dao) instanceId params) = Ok path)
      /\ forall p, params = Some p -> isWellFormed p = true).
Proof.
  unfold getAppPath. cbn [arg_dao arg_instanceId arg_params].
  destruct params as [[|c p]|]; cbn [truthy default from_option id].
  - right. split; [by repeat case_match; eexists|]. by intros p [= <-].
  - destruct (isWellFormed (c :: p)) eqn:Hwf.
    + destruct (encode_wellFormed _ Hwf) as [e ->]. cbn.
      right. split; [by repeat case_match; eexists|]. by intros p' [= <-].
    + rewrite (encode_illFormed _ Hwf). cbn. left. split; [done|]. by eexists.
  - right. split; [by repeat case_match; eexists|]. by intros p [=].
Qed.

(** X8: the two ways in which [getAppPath] throws.  It throws a
    [TypeError] exactly when the argument has no [dao], as the default
    argument [{}] has none, and a [URIError] exactly when there is a
    [dao] and the params are a string with an unpaired surrogate; with a
    [dao] and params that are null or well formed it returns a path. *)
Theorem getAppPath_throws_exactly args :
  (build args = Throw TypeError <-> arg_dao args = None)
  /\ (build args = Throw URIError
      <-> arg_dao args <> None
          /\ exists p, arg_params args = Some p /\ isWellFormed p = false)
  /\ ((exists path, build args = Ok path)
      <-> arg_dao args <> None
          /\ forall p, arg_params args = Some p -> isWellFormed p = true).
Proof.
  destruct args as [[dao|] instanceId params]; cbn [arg_dao arg_params].
  - destruct (getAppPath_with_dao dao instanceId params)
      as [[-> (p & -> & Hp)]|[[path ->] Hwf]].
    + split; [split; intros [=]|]. split.
      * split; [|done]. intros _. split; [done|]. by exists p.
      * split; [by intros [? [=]]|].
        intros [_ H]. specialize (H p eq_refl). congruence.
    + split; [split; intros [=]|]. split.
      * split; [intros [=]|]. intros (_ & p & -> & Hp).
        specialize (Hwf p eq_refl). congruence.
      * split; [done|]. intros _. by exists path.
  - change (build (mkAppPathArgs None instanceId params)) with (@Throw str TypeError).
    split; [done|]. split.
    + split; [intros [=]|]. by intros [? _].
    + split; [by intros [? [=]]|]. by intros [? _].
Qed.

(** The domain is found after the label, whatever follows it. *)
Lemma cut_aragonid_tail label tail :
  includes ARAGONID_ENS_DOMAIN label = false ->
  cut ARAGONID_ENS_DOMAIN (label ++ js "." ++ ARAGONID_ENS_DOMAIN ++ tail)
  = Some (label ++ js ".", tail).
Proof.
  induction label as [|x l IH]; intros Hl.
  { change ([] ++ ?t) with t.
    change (js "." ++ ARAGONID_ENS_DOMAIN ++ tail)
      with (0x2E :: (ARAGONID_ENS_DOMAIN ++ tail)).
    rewrite cut_later by done.
    by rewrite cut_eq, startsWith_app, drop_app_length. }
  apply includes_cons_false in Hl as [Hx Hl].
  change ((x :: l) ++ ?t) with (x :: (l ++ t)).
  rewrite cut_eq, (IH Hl).
  destruct (startsWith ARAGONID_ENS_DOMAIN
              (x :: l ++ js "." ++ ARAGONID_ENS_DOMAIN ++ tail)) eqn:E;
    [|reflexivity].
  exfalso.
  change (x :: l ++ ?t) with ((x :: l) ++ t) in E.
  apply startsWith_app_inv in E as [E|(k & Hk & Hne & E)]; [congruence|].
  clear -Hk Hne E. vm_compute in Hk. injection Hk as _ Hk.
  repeat (destruct l as [|? l];
          [ cbn [app] in Hk; subst k; vm_compute in E; discriminate
          | try discriminate Hk; injection Hk as _ Hk ]).
  destruct l; cbn in Hk; [congruence|discriminate].
Qed.

(** The name that goes in the path when the domain follows the label. *)
Lemma short_name label tail :
  includes ARAGONID_ENS_DOMAIN label = false ->
  (if (-1 <? indexOf ARAGONID_ENS_DOMAIN
               (label ++ js "." ++ ARAGONID_ENS_DOMAIN ++ tail))%Z
   then substr0 (label ++ js "." ++ ARAGONID_ENS_DOMAIN ++ tail)
          (indexOf ARAGONID_ENS_DOMAIN
             (label ++ js "." ++ ARAGONID_ENS_DOMAIN ++ tail) - 1)
   else label ++ js "." ++ ARAGONID_ENS_DOMAIN ++ tail)
  = label.
Proof.
  intros H. unfold indexOf. rewrite (cut_aragonid_tail _ _ H), length_app.
  cbn [length js map list_ascii_of_string].
  destruct (Z.ltb_spec (-1) (Z.of_nat (length label + 1))) as [_|?]; [|lia].
  unfold substr0.
  replace (Z.to_nat (Z.of_nat (length label + 1) - 1)) with (length label) by lia.
  by rewrite take_app_length.
Qed.

(** X10: [getAppPath] drops the first ["aragonid.eth"] of the dao and
    everything after it: a name that goes on after the domain has the
    path of the name that stops there. *)
Theorem getAppPath_ignores_after_domain label tail instanceId params :
  includes ARAGONID_ENS_DOMAIN label = false ->
  build (mkAppPathArgs (Some (label ++ js ".aragonid.eth" ++ tail)) instanceId params)
  = build (mkAppPathArgs (Some (label ++ js ".aragonid.eth")) instanceId params).
Proof.
  intros H. unfold getAppPath. cbn [arg_dao arg_instanceId arg_params].
  change (js ".aragonid.eth") with (js "." ++ ARAGONID_ENS_DOMAIN).
  rewrite <- (app_nil_r (label ++ js "." ++ ARAGONID_ENS_DOMAIN)).
  rewrite <- !app_assoc.
  by rewrite !(short_name _ _ H).
Qed.

(** X11: a dao that starts with ["aragonid.eth"] has an empty name in
    the path, and the path ["//instanceId"] is the start screen for
    [parsePath], not an organization. *)
Theorem getAppPath_domain_first tail instanceId history search w :
  staticApps !! instanceId = None ->
  build (mkAppPathArgs (Some (js "aragonid.eth" ++ tail)) (Some instanceId) None)
  = Ok (js "//" ++ instanceId)
  /\ parse history (js "//" ++ instanceId) search w
     = (Ok (StartLocator ((js "//" ++ instanceId) ++ search) (Some (js ""))), w).
Proof.
  intros Hreg. split.
  - unfold getAppPath. cbn [arg_dao arg_instanceId arg_params].
    unfold indexOf. change (js "aragonid.eth") with ARAGONID_ENS_DOMAIN.
    rewrite cut_eq, startsWith_app.
    cbn [length Z.of_nat Z.ltb Z.compare Z.sub Z.add Z.opp Z.pos_sub substr0
           Z.to_nat take default from_option id truthy].
    rewrite Hreg. by rewrite app_nil_r.
  - unfold parsePath.
    change (js "//" ++ instanceId) with ([] ++ [0x2F] ++ ([0x2F] ++ instanceId)).
    change (js "/") with [0x2F].
    rewrite (split_first 0x2F [] [] _ eq_refl).
    change ([0x2F] ++ instanceId) with ([] ++ [0x2F] ++ instanceId).
    rewrite (split_first 0x2F [] [] _ eq_refl).
    reflexivity.
Qed.

(** The text of the path, with the registry looked up. *)
Lemma getAppPath_text short dao instanceId params :
  (isAddress dao = true /\ short = dao)
  \/ (isAddress short = false /\ isValidEnsName short = false
      /\ dao = short ++ js ".aragonid.eth") ->
  includes ARAGONID_ENS_DOMAIN short = false ->
  build (mkAppPathArgs (Some dao) (Some instanceId) params)
  = (fun part =>
       js "/" ++ short
         ++ match staticApps !! instanceId with
            | Some app => route app
            | None => js "/" ++ instanceId
            end ++ part)
      <$> match params with
          | Some (c :: p) => app (js "?p=") <$> encodeURIComponent (c :: p)
          | _ => Ok []
          end.
Proof.
  intros Hdao Hinc. unfold getAppPath. cbn [arg_dao arg_instanceId arg_params].
  assert ((if (-1 <? indexOf ARAGONID_ENS_DOMAIN dao)%Z
           then substr0 dao (indexOf ARAGONID_ENS_DOMAIN dao - 1)
           else dao) = short) as ->.
  { destruct Hdao as [[_ ->]|(_ & _ & ->)].
    - unfold indexOf. by rewrite (cut_absent _ _ Hinc).
    - change (js ".aragonid.eth") with (js "." ++ ARAGONID_ENS_DOMAIN).
      rewrite <- (app_nil_r (short ++ js "." ++ ARAGONID_ENS_DOMAIN)).
      rewrite <- !app_assoc. by apply short_name. }
  cbn [default from_option id].
  destruct params as [[|c p]|]; cbn [truthy default from_option id].
  - by destruct (staticApps !! instanceId).
  - destruct (encodeURIComponent (c :: p)); [|done].
    by destruct (staticApps !! instanceId).
  - by destruct (staticApps !! instanceId).
Qed.

(** X9: the round trip through the registry.  Let [instanceId] be in the
    static registry with a route of one slash and one segment without
    ['/'], ['?'] or ['#'].  Let the dao be a valid address, or a label
    that is neither a valid address nor a valid ENS name followed by
    [.aragonid.eth]; let the name as it goes in the path, the address or
    the label, be free of ['/'], ['?'], ['#'] and of ["aragonid.eth"],
    and be none of [""], ["open"], ["create"], ["setup"].  Let the
    params be null or a non-empty string of code units without an
    unpaired surrogate.  Then [getAppPath] returns a path, and its
    pathname and search parse, with no effect on the world, to an
    org-mode locator with the same [dao] and [params] and with the
    route's segment as [instanceId]; a route of a lone slash parses to
    ["home"]. *)
Theorem getAppPath_registered_roundtrip
    history short dao instanceId app seg params w :
  staticApps !! instanceId = Some app ->
  route app = js "/" ++ seg ->
  pathSegment seg = true ->
  (isAddress dao = true /\ short = dao)
  \/ (isAddress short = false /\ isValidEnsName short = false
      /\ dao = short ++ js ".aragonid.eth") ->
  includes ARAGONID_ENS_DOMAIN short = false ->
  reservedSegment short = false ->
  pathSegment short = true ->
  match params with
  | Some p => p <> [] /\ isString p = true /\ isWellFormed p = true
  | None => True
  end ->
  exists path pathname search L,
    build (mkAppPathArgs (Some dao) (Some instanceId) params) = Ok path
    /\ locationOf path = (pathname, search)
    /\ parse history pathname search w = (Ok L, w)
    /\ mode L = APP_MODE_ORG
    /\ loc_dao L = Some dao
    /\ loc_instanceId L = Some (match seg with [] => js "home" | _ :: _ => seg end)
    /\ loc_params L = params.
Proof.
  intros Hreg Hroute Hseg Hdao Hinc Hres Hshort Hparams.
  unfold pathSegment in Hshort, Hseg.
  apply andb_prop in Hshort as [[Hs1 Hs2]%andb_prop Hs3].
  apply andb_prop in Hseg as [[Hi1 Hi2]%andb_prop Hi3].
  pose proof (getAppPath_text short dao instanceId params Hdao Hinc) as Hpath.
  rewrite Hreg, Hroute in Hpath.
  assert (nameOf short = dao
          /\ isValidEnsName short && endsWith ARAGONID_ENS_DOMAIN short = false)
    as [Hd Hquiet].
  { unfold daoOf. destruct Hdao as [[Ha ->]|(Ha & He & ->)].
    - rewrite Ha. split; [done|].
      destruct (endsWith _ _) eqn:E; [|by rewrite andb_false_r].
      apply endsWith_includes in E. congruence.
    - by rewrite Ha, He. }
  assert (lacks 0x3F (js "/" ++ short ++ js "/" ++ seg) = true
          /\ lacks 0x23 (js "/" ++ short ++ js "/" ++ seg) = true)
    as [Hq Hh].
  { by rewrite !lacks_app, Hs2, Hs3, Hi2, Hi3. }
  assert (forall search,
    parse history (js "/" ++ short ++ js "/" ++ seg) search w
    = (Ok (OrgLocator ((js "/" ++ short ++ js "/" ++ seg) ++ search)
             dao (match seg with [] => js "home" | _ :: _ => seg end)
             (paramsOf search) [] (parsePreferences search)),
       mkWorld (replaced w) (console w ++ logOf search))) as Hparse.
  { intros search. rewrite joinPath_two.
    rewrite parsePath_org, parseOrganization_quiet, Hd;
      [|done..|cbn [forallb]; unfold slashFree; by rewrite Hs1, Hi1|done].
    by destruct seg. }
  destruct params as [[|c p]|].
  - by destruct Hparams.
  - destruct Hparams as (Hpne & Hstr & Hwf).
    destruct (encode_wellFormed _ Hwf) as [e He].
    destruct (paramsOf_encoded _ _ Hpne Hstr He) as (Hpo & Hlo & Heh).
    exists (js "/" ++ short ++ (js "/" ++ seg) ++ js "?p=" ++ e),
      (js "/" ++ short ++ js "/" ++ seg), (js "?p=" ++ e).
    eexists. split; [by rewrite Hpath, He|].
    split.
    { rewrite <- (locationOf_search _ e Hq Hh Heh). f_equal.
      by rewrite <- !app_assoc. }
    rewrite Hparse, Hpo, Hlo, app_nil_r. by destruct w.
  - exists (js "/" ++ short ++ (js "/" ++ seg) ++ []),
      (js "/" ++ short ++ js "/" ++ seg), [].
    eexists. split; [done|]. rewrite !app_nil_r.
    split; [by apply locationOf_pathname|].
    rewrite Hparse. change (paramsOf []) with (@None str).
    change (logOf []) with (@nil str). rewrite !app_nil_r. by destruct w.
Qed.

End RoutingMore.

(** ** More on the preferences parser *)

Module PreferencesMore.
Import JS JSFacts PreferencesFacts.

(** X12: whatever the search string, the [path] of the preferences is a
    string, never null, and their [params] are empty or bind the one key
    ["&labels="] to a non-empty string. *)
Theorem parsePreferences_shape search :
  pref_path (parsePreferences search) <> None
  /\ (pref_params (parsePreferences search) = ∅
      \/ exists labels,
           labels <> []
           /\ pref_params (parsePreferences search)
              = {[ js "&labels=" := labels ]}).
Proof.
  split; [apply parsePreferences_path_not_null|].
  unfold parsePreferences. cbn [pref_params].
  destruct (split GLOBAL_PREFERENCES_SHARE_LINK_QUERY_VAR _ !! 1%nat)
    as [[|c l]|]; cbn [truthy]; [by left| |by left].
  right. by exists (c :: l).
Qed.

(** X13: a search string without ["?preferences=/"] gives the empty
    path and no params. *)
Theorem parsePreferences_absent search :
  includes GLOBAL_PREFERENCES_QUERY_PARAM search = false ->
  parsePreferences search = mkPreferences (Some []) ∅.
Proof.
  intros H. unfold parsePreferences. destruct search as [|x s]; [done|].
  unfold GLOBAL_PREFERENCES_QUERY_PARAM in *.
  change (js "?preferences=/") with (0x3F :: js "preferences=/") in *.
  by rewrite split_unfold, (cut_absent _ _ H).
Qed.

(** X14: the preferences depend only on what follows the first
    ["?preferences=/"]: the text before it plays no part. *)
Theorem parsePreferences_after_marker pre raw :
  includes GLOBAL_PREFERENCES_QUERY_PARAM pre = false ->
  parsePreferences (pre ++ js "?preferences=/" ++ raw)
  = parsePreferences (js "?preferences=/" ++ raw).
Proof.
  intros Hpre. unfold parsePreferences.
  assert (forall a, includes GLOBAL_PREFERENCES_QUERY_PARAM a = false ->
    match a ++ js "?preferences=/" ++ raw with
    | [] => []
    | _ :: _ =>
        default [] (split GLOBAL_PREFERENCES_QUERY_PARAM
                      (a ++ js "?preferences=/" ++ raw) !! 1%nat)
    end
    = match cut GLOBAL_PREFERENCES_QUERY_PARAM raw with
      | Some (field, _) => field
      | None => raw
      end) as Hraw.
  { intros a Ha. destruct (a ++ _) as [|x s] eqn:Hs; [by destruct a|].
    rewrite <- Hs. unfold GLOBAL_PREFERENCES_QUERY_PARAM in *.
    change (js "?preferences=/") with (0x3F :: js "preferences=/") in *.
    rewrite split_second. unfold fieldAfterMarker, textAfterMarker.
    rewrite cut_marker by done. by destruct (cut _ raw) as [[??]|]. }
  rewrite (Hraw pre Hpre).
  pose proof (Hraw [] eq_refl) as H0. change ([] ++ ?l) with l in H0.
  by rewrite H0.
Qed.

End PreferencesMore.


(** ** The redemptions screen *)

Module JSArrayFacts.
Import JSArray.

Lemma filter_from_keep {A} (index : Z) k (l : list A) :
  (index < Z.of_nat k)%Z ->
  filter_from (fun _ i => negb (Z.of_nat i =? index)%Z) k l = l.
Proof.
  revert k. induction l as [|x l IH]; intros k Hk; [done|].
  cbn [filter_from]. destruct (Z.eqb_spec (Z.of_nat k) index); [lia|].
  cbn [negb]. f_equal. apply IH. lia.
Qed.

Lemma filter_from_delete {A} n k (l : list A) :
  (k <= n)%nat ->
  filter_from (fun _ i => negb (Z.of_nat i =? Z.of_nat n)%Z) k l
  = delete (n - k)%nat l.
Proof.
  revert k. induction l as [|x l IH]; intros k Hk; [done|].
  cbn [filter_from]. destruct (Z.eqb_spec (Z.of_nat k) (Z.of_nat n)) as [E|E].
  - assert (k = n) as -> by lia. rewrite Nat.sub_diag. cbn [negb delete list_delete].
    apply filter_from_keep. lia.
  - cbn [negb]. destruct (n - k)%nat as [|m] eqn:Hm; [lia|].
    cbn [delete list_delete]. f_equal.
    replace m with (n - S k)%nat by lia. apply IH. lia.
Qed.

Lemma map_from_keep {A} (index : Z) (y : A) k (l : list A) :
  (index < Z.of_nat k)%Z ->
  map_from (fun item i => if (Z.of_nat i =? index)%Z then y else item) k l = l.
Proof.
  revert k. induction l as [|x l IH]; intros k Hk; [done|].
  cbn [map_from]. destruct (Z.eqb_spec (Z.of_nat k) index); [lia|].
  f_equal. apply IH. lia.
Qed.

Lemma map_from_insert {A} n (y : A) k (l : list A) :
  (k <= n)%nat ->
  map_from (fun item i => if (Z.of_nat i =? Z.of_nat n)%Z then y else item) k l
  = <[(n - k)%nat := y]> l.
Proof.
  revert k. induction l as [|x l IH]; intros k Hk; [done|].
  cbn [map_from]. destruct (Z.eqb_spec (Z.of_nat k) (Z.of_nat n)) as [E|E].
  - assert (k = n) as -> by lia. rewrite Nat.sub_diag. cbn [insert list_insert].
    f_equal. apply map_from_keep. lia.
  - destruct (n - k)%nat as [|m] eqn:Hm; [lia|].
    cbn [insert list_insert]. f_equal.
    replace m with (n - S k)%nat by lia. apply IH. lia.
Qed.

Lemma some_from_false {A} (f : A -> nat -> bool) k (l : list A) i x :
  some_from f k l = false -> l !! i = Some x -> f x (k + i)%nat = false.
Proof.
  revert k i. induction l as [|y l IH]; intros k i Hs Hl; [done|].
  cbn [some_from] in Hs. apply orb_false_iff in Hs as [Hy Hs].
  destruct i as [|i]; cbn in Hl.
  - injection Hl as ->. by rewrite Nat.add_0_r.
  - replace (k + S i)%nat with (S k + i)%nat by lia. by apply IH.
Qed.

Lemma some_from_true {A} (f : A -> nat -> bool) k (l : list A) :
  some_from f k l = true ->
  exists i x, l !! i = Some x /\ f x (k + i)%nat = true.
Proof.
  revert k. induction l as [|y l IH]; intros k Hs; [done|].
  cbn [some_from] in Hs. apply orb_true_iff in Hs as [Hy|Hs].
  - exists 0%nat, y. by rewrite Nat.add_0_r.
  - destruct (IH _ Hs) as (i & x & Hl & Hf). exists (S i), x.
    split; [done|]. by replace (k + S i)%nat with (S k + i)%nat by lia.
Qed.

End JSArrayFacts.

Section RedemptionsFacts.
Import JS Redemptions JSArrayFacts.

Variable isAddress : str -> bool.
Variable addressesEqual : str -> str -> bool.

#[local] Abbreviation validate := (validationError isAddress).
#[local] Abbreviation update := (handleTokenUpdated isAddress addressesEqual).
#[local] Abbreviation submit := (handleSubmit isAddress).
#[local] Abbreviation distinct := (distinctValid isAddress addressesEqual).

(** The rows that [handleSubmit] keeps: those with an address. *)
#[local] Abbreviation filled :=
  (List.filter (fun e => negb (bool_decide (address (token e) = js "")))).

Lemma existsb_negb {A} (f : A -> bool) l :
  existsb (fun x => negb (f x)) l = negb (forallb f l).
Proof.
  induction l as [|x l IH]; [done|]. cbn [existsb forallb].
  rewrite IH. by destruct (f x).
Qed.

Lemma validate_None rows :
  validate rows = None
  <-> rows <> [] /\ forallb (fun e => isAddress (address (token e))) rows = true.
Proof.
  unfold validationError. rewrite existsb_negb.
  destruct rows as [|e rows]; [by split; [|intros [??]]|].
  cbn [length Nat.eqb].
  destruct (forallb _ (e :: rows)); cbn [negb]; by split; [|intros [??]].
Qed.

(** X15: [validationError] returns null exactly for a non-empty list
    whose addresses are all valid; an empty list gets the message about
    selecting a token, whatever else holds. *)
Theorem validationError_passes rows :
  (validate rows = None
   <-> rows <> []
       /\ forallb (fun e => isAddress (address (token e))) rows = true)
  /\ (validate rows = Some NO_TOKEN_SELECTED <-> rows = []).
Proof.
  split; [apply validate_None|].
  unfold validationError. destruct rows as [|e rows]; [done|].
  cbn [length Nat.eqb]. split; [|done]. by repeat case_match.
Qed.

Lemma filled_addresses rows :
  forallb (fun e => negb (bool_decide (address (token e) = js ""))) (filled rows)
  = true.
Proof.
  induction rows as [|e rows IH]; [done|]. cbn [List.filter].
  destruct (negb (bool_decide _)) eqn:E; [|done]. cbn [forallb]. by rewrite E.
Qed.

(** The two ways [handleSubmit] can go. *)
Lemma handleSubmit_cases dataKey data st :
  (validate (filled (redeemableTokens st)) = None
   /\ submit dataKey data st
      = (mkState (redeemableTokens st) None,
         [PreventDefault;
          Next (if truthy (Some dataKey)
                then VObject
                       (setProp data dataKey
                          (VObject [(js "redeemableTokens",
                                     VTokens (filled (redeemableTokens st)))]))
                else VObject [(js "redeemableTokens",
                               VTokens (filled (redeemableTokens st)))])]))
  \/ (exists message,
        (message = NO_TOKEN_SELECTED \/ message = NOT_VALID_ADDRESSES)
        /\ submit dataKey data st
           = (mkState (redeemableTokens st) (Some message), [PreventDefault])).
Proof.
  unfold handleSubmit.
  destruct (validate (filled (redeemableTokens st))) as [message|] eqn:Hv.
  - right. exists message.
    unfold validationError in Hv.
    repeat case_match; simplify_eq; by auto.
  - by left.
Qed.

(** X16: what [handleSubmit] does.  It never changes the rows.  Either
    it sets an error and stops after [preventDefault], or it clears the
    error and calls [next] once, and then the rows handed over are the
    rows with an address, in their order: there is at least one, and
    every address is valid. *)
Theorem handleSubmit_outcome dataKey data st :
  redeemableTokens (submit dataKey data st).1 = redeemableTokens st
  /\ match formError (submit dataKey data st).1 with
     | Some message =>
         (submit dataKey data st).2 = [PreventDefault]
         /\ (message = NO_TOKEN_SELECTED \/ message = NOT_VALID_ADDRESSES)
     | None =>
         (submit dataKey data st).2
         = [PreventDefault;
            Next (let screenData :=
                    VObject [(js "redeemableTokens",
                              VTokens (filled (redeemableTokens st)))] in
                  if truthy (Some dataKey)
                  then VObject (setProp data dataKey screenData)
                  else screenData)]
         /\ filled (redeemableTokens st) <> []
         /\ forallb (fun e => isAddress (address (token e)))
              (filled (redeemableTokens st)) = true
         /\ forallb (fun e => negb (bool_decide (address (token e) = js "")))
              (filled (redeemableTokens st)) = true
     end.
Proof.
  destruct (handleSubmit_cases dataKey data st)
    as [[Hv ->]|(message & Hm & ->)]; cbn [fst snd redeemableTokens formError].
  - split; [done|]. split; [done|].
    apply validate_None in Hv as [Hne Hall].
    repeat split; try done. apply filled_addresses.
  - done.
Qed.

Lemma getProp_setProp props key v :
  getProp (setProp props key v) key = v.
Proof.
  induction props as [|[k x] props IH]; cbn.
  - by rewrite bool_decide_eq_true_2.
  - destruct (bool_decide (k = key)) eqn:E; cbn; by rewrite E.
Qed.

Lemma getProp_setProp_ne props key key' v :
  key <> key' -> getProp (setProp props key v) key' = getProp props key'.
Proof.
  intros Hne. induction props as [|[k x] props IH]; cbn.
  - by rewrite bool_decide_eq_false_2.
  - destruct (bool_decide (k = key)) eqn:E; cbn; [|by rewrite IH].
    apply bool_decide_eq_true in E as ->.
    by rewrite !bool_decide_eq_false_2.
Qed.

Lemma initialTokens_rows dataKey props rows :
  rows <> [] ->
  screenDataOf dataKey props = VObject [(js "redeemableTokens", VTokens rows)] ->
  initialTokens dataKey props = VTokens rows.
Proof.
  intros Hne Hsd. unfold initialTokens. rewrite Hsd.
  destruct rows as [|e rows]; [done|]. reflexivity.
Qed.

(** X17: what is handed to [next] opens the screen again with the same
    rows: the initial state read from the payload is the list of rows
    that were submitted. *)
Theorem submit_then_reopen dataKey data st st' payload :
  submit dataKey data st = (st', [PreventDefault; Next payload]) ->
  exists props,
    payload = VObject props
    /\ initialTokens dataKey props = VTokens (filled (redeemableTokens st)).
Proof.
  destruct (handleSubmit_cases dataKey data st)
    as [[Hv ->]|(message & Hm & ->)]; [|done].
  intros [= <- <-].
  apply validate_None in Hv as [Hne _].
  destruct dataKey as [|c key].
  - eexists. split; [done|]. by apply initialTokens_rows.
  - eexists. split; [done|]. apply initialTokens_rows; [done|].
    unfold screenDataOf. cbn [truthy]. by rewrite getProp_setProp.
Qed.

(** X18: with a data key, [handleSubmit] hands the whole data of the
    wizard to [next]: the screen's own property holds the submitted
    rows, and every other property is what it was. *)
Theorem handleSubmit_keeps_other_screens dataKey data st st' payload key :
  dataKey <> [] ->
  submit dataKey data st = (st', [PreventDefault; Next payload]) ->
  key <> dataKey ->
  exists props,
    payload = VObject props
    /\ getProp props key = getProp data key
    /\ getProp props dataKey
       = VObject [(js "redeemableTokens", VTokens (filled (redeemableTokens st)))].
Proof.
  intros Hk Hs Hkey.
  destruct (handleSubmit_cases dataKey data st)
    as [[Hv Hrun]|(message & Hm & Hrun)]; rewrite Hrun in Hs; [|done].
  injection Hs as <- <-.
  destruct dataKey as [|c k]; [done|].
  eexists. split; [done|].
  by rewrite getProp_setProp, getProp_setProp_ne.
Qed.

(** *** The rows *)

Lemma update_rows u st :
  redeemableTokens (update u st)
  = (if JSArray.some
          (fun e index =>
             isAddress (address (newToken u))
             && negb (Z.of_nat index =? componentIndex u)%Z
             && addressesEqual (address (token e)) (address (newToken u)))
          (redeemableTokens st)
     then redeemableTokens st
     else if (0 <=? componentIndex u)%Z
          then <[Z.to_nat (componentIndex u) :=
                   mkEntry (newToken u) (newSelectedIndex u)]> (redeemableTokens st)
          else redeemableTokens st).
Proof.
  unfold handleTokenUpdated. destruct (JSArray.some _ _); [done|].
  cbn [redeemableTokens]. unfold JSArray.map.
  destruct (Z.leb_spec 0 (componentIndex u)) as [Hc|Hc].
  - destruct (Z_of_nat_complete _ Hc) as [n ->].
    rewrite map_from_insert by lia. by rewrite Nat.sub_0_r, Nat2Z.id.
  - apply map_from_keep. lia.
Qed.

(** X19: what [handleTokenUpdated] does.  When the new address is valid
    and another row holds an equal address, the rows stay as they are and
    the error says so.  Otherwise the error is cleared and the row at
    [componentIndex] is replaced, all other rows staying in place; an
    index outside the list changes nothing. *)
Theorem handleTokenUpdated_outcome u st :
  (formError (update u st) = Some ALREADY_SELECTED
   /\ redeemableTokens (update u st) = redeemableTokens st
   /\ isAddress (address (newToken u)) = true
   /\ exists j e,
        Z.of_nat j <> componentIndex u
        /\ redeemableTokens st !! j = Some e
        /\ addressesEqual (address (token e)) (address (newToken u)) = true)
  \/ (formError (update u st) = None
      /\ redeemableTokens (update u st)
         = (if (0 <=? componentIndex u)%Z
            then <[Z.to_nat (componentIndex u) :=
                     mkEntry (newToken u) (newSelectedIndex u)]>
                   (redeemableTokens st)
            else redeemableTokens st)
      /\ forall j e,
           Z.of_nat j <> componentIndex u ->
           redeemableTokens st !! j = Some e ->
           isAddress (address (newToken u)) = true ->
           addressesEqual (address (token e)) (address (newToken u)) = false).
Proof.
  pose proof (update_rows u st) as Hrows. revert Hrows.
  unfold handleTokenUpdated, JSArray.some.
  destruct (JSArray.some_from _ 0 (redeemableTokens st)) eqn:Hdup.
  - intros _. left. split; [done|]. split; [done|].
    apply some_from_true in Hdup as (j & e & Hj & Hf).
    apply andb_prop in Hf as [[Ha Hne]%andb_prop Heq].
    split; [done|]. exists j, e. repeat split; try done.
    apply negb_true_iff, Z.eqb_neq in Hne. by rewrite Nat.add_0_l in Hne.
  - intros Hrows. right. split; [done|]. split; [done|].
    intros j e Hne Hj Ha.
    pose proof (some_from_false _ _ _ _ _ Hdup Hj) as Hf. cbn beta in Hf.
    rewrite Ha, Nat.add_0_l in Hf. apply Z.eqb_neq in Hne. rewrite Hne in Hf.
    by cbn in Hf.
Qed.

(** X21: [handleTokenRemoved] takes out the row at the index and clears
    the error; a negative index, or one past the end, removes nothing. *)
Theorem handleTokenRemoved_outcome index st :
  formError (handleTokenRemoved index st) = None
  /\ redeemableTokens (handleTokenRemoved index st)
     = (if (0 <=? index)%Z
        then delete (Z.to_nat index) (redeemableTokens st)
        else redeemableTokens st).
Proof.
  split; [done|]. unfold handleTokenRemoved, JSArray.filter. cbn [redeemableTokens].
  destruct (Z.leb_spec 0 index) as [Hc|Hc].
  - destruct (Z_of_nat_complete _ Hc) as [n ->].
    rewrite filter_from_delete by lia. by rewrite Nat.sub_0_r, Nat2Z.id.
  - apply filter_from_keep. lia.
Qed.

(** X22: adding a row and removing the last row gives the rows back. *)
Theorem add_then_remove_last st :
  redeemableTokens
    (handleTokenRemoved (Z.of_nat (length (redeemableTokens st)))
       (handleTokenAdded st))
  = redeemableTokens st.
Proof.
  unfold handleTokenRemoved, handleTokenAdded, JSArray.filter.
  cbn [redeemableTokens]. rewrite filter_from_delete by lia.
  rewrite Nat.sub_0_r. generalize (redeemableTokens st). intros rows.
  induction rows as [|e rows IH]; [done|].
  cbn [length app].
  change (delete (S (length rows)) (e :: (rows ++ [EMPTY_TOKEN])))
    with (e :: delete (length rows) (rows ++ [EMPTY_TOKEN])).
  by rewrite IH.
Qed.


(** *** Distinct addresses *)

(** X20: the handlers keep valid addresses apart.  When [addressesEqual]
    does not depend on the order of its arguments and the empty string is
    not a valid address, rows in which no two valid addresses are equal
    stay so after a row is added, removed or updated. *)
Theorem handlers_keep_addresses_distinct st :
  (forall a b, addressesEqual a b = addressesEqual b a) ->
  isAddress (js "") = false ->
  distinct (redeemableTokens st) ->
  distinct (redeemableTokens (handleTokenAdded st))
  /\ (forall index, distinct (redeemableTokens (handleTokenRemoved index st)))
  /\ (forall u, distinct (redeemableTokens (update u st))).
Proof.
  intros Hsym Hempty Hd. split; [|split].
  - unfold handleTokenAdded. cbn [redeemableTokens].
    intros i j a b Hij Hi Hj Ha Hb.
    apply lookup_app_Some in Hi as [Hi|[_ Hi]];
      [|apply list_lookup_singleton_Some in Hi as [_ <-];
        change (isAddress (js "") = true) in Ha; congruence].
    apply lookup_app_Some in Hj as [Hj|[_ Hj]];
      [|apply list_lookup_singleton_Some in Hj as [_ <-];
        change (isAddress (js "") = true) in Hb; congruence].
    by apply (Hd i j).
  - intros index.
    assert (forall n, distinct (delete n (redeemableTokens st))) as Hdel.
    { intros n i j a b Hij Hi Hj.
      rewrite list_lookup_delete in Hi, Hj.
      eapply Hd; [|exact Hi|exact Hj]. repeat case_decide; lia. }
    unfold handleTokenRemoved, JSArray.filter. cbn [redeemableTokens].
    destruct (Z.leb_spec 0 index) as [Hc|Hc].
    + destruct (Z_of_nat_complete _ Hc) as [n ->].
      rewrite filter_from_delete by lia. apply Hdel.
    + by rewrite filter_from_keep by lia.
  - intros u. rewrite update_rows.
    destruct (JSArray.some _ _) eqn:Hdup; [done|].
    destruct (0 <=? componentIndex u)%Z eqn:Hc; [|done].
    apply Z.leb_le in Hc. unfold JSArray.some in Hdup.
    intros i j a b Hij Hi Hj Ha Hb.
    apply list_lookup_insert_Some in Hi as [(Hni & <- & Hlt)|[Hni Hi]];
      apply list_lookup_insert_Some in Hj as [(Hnj & <- & Hlt')|[Hnj Hj]];
      [congruence| | |].
    + cbn [token] in *. rewrite Hsym.
      pose proof (some_from_false _ _ _ _ _ Hdup Hj) as Hf. cbn beta in Hf.
      rewrite Ha, Nat.add_0_l in Hf.
      destruct (Z.eqb_spec (Z.of_nat j) (componentIndex u)); [lia|].
      by cbn in Hf.
    + cbn [token] in *.
      pose proof (some_from_false _ _ _ _ _ Hdup Hi) as Hf. cbn beta in Hf.
      rewrite Hb, Nat.add_0_l in Hf.
      destruct (Z.eqb_spec (Z.of_nat i) (componentIndex u)); [lia|].
      by cbn in Hf.
    + by apply (Hd i j).
Qed.

End RedemptionsFacts.

(** ** Further examples *)

Section MoreExamples.
Import JS JSFacts Redemptions.

#[local] Abbreviation parse := (parsePath Web3Utils.isAddress Web3Utils.isValidEnsName).
#[local] Abbreviation build := (getAppPath exampleStaticApps).

(** ["/open/anything"] is the start screen. *)
Lemma parsePath_quiet_outside_organizations_example :
  exists L,
    parse browserHistory (js "/open/anything") (js "?p=%") quietWorld
    = (Ok L, quietWorld)
    /\ mode L <> APP_MODE_ORG
    /\ loc_path L = js "/open/anything" ++ js "?p=%".
Proof.
  exact (parsePath_quiet_outside_organizations Web3Utils.isAddress
           Web3Utils.isValidEnsName browserHistory (js "/open/anything")
           (js "?p=%") quietWorld eq_refl).
Defined.

(** The browser's handle returns. *)
Lemma parsePath_returns_when_replace_returns_example :
  exists L w',
    parse browserHistory (js "/mydao.aragonid.eth") (js "?p=%") quietWorld
    = (Ok L, w').
Proof.
  apply (parsePath_returns_when_replace_returns Web3Utils.isAddress
           Web3Utils.isValidEnsName browserHistory).
  intros args w0. by eexists.
Defined.

(** ["/mydao.aragonid.eth/voting/x"] is replaced by ["/mydao/voting/x"],
    which is the same organization. *)
Lemma parsePath_replacement_stable_example :
  exists L w1 target L' w2,
    parse browserHistory (js "/mydao.aragonid.eth/voting/x") (js "?p=a") quietWorld
    = (Ok L, w1)
    /\ replaced w1 = replaced quietWorld ++ [mkReplace target (js "?p=a") true]
    /\ parse browserHistory target (js "?p=a") w1 = (Ok L', w2)
    /\ replaced w2 = replaced w1
    /\ mode L' = APP_MODE_ORG
    /\ loc_dao L' = loc_dao L
    /\ loc_instanceId L' = loc_instanceId L
    /\ loc_params L' = loc_params L
    /\ loc_parts L' = loc_parts L
    /\ loc_preferences L' = loc_preferences L.
Proof.
  exact (parsePath_replacement_stable Web3Utils.isAddress Web3Utils.isValidEnsName
           (js "") (js "mydao") [js "voting"; js "x"] (js "?p=a") quietWorld
           eq_refl eq_refl eq_refl eq_refl eq_refl eq_refl eq_refl).
Defined.

(** An address and a domain outside [aragonid.eth] are kept. *)
Lemma parsePath_valid_name_kept_example :
  exists L w',
    parse browserHistory (js "/company.eth/voting/vote/3") (js "") quietWorld
    = (Ok L, w')
    /\ mode L = APP_MODE_ORG
    /\ loc_dao L = Some (js "company.eth")
    /\ loc_parts L = [js "vote"; js "3"].
Proof.
  exact (parsePath_valid_name_kept Web3Utils.isAddress Web3Utils.isValidEnsName
           (js "") (js "company.eth") [js "voting"; js "vote"; js "3"] (js "")
           quietWorld eq_refl eq_refl eq_refl eq_refl).
Defined.

(** ["?p="] gives null, not the empty string. *)
Lemma parsePath_params_never_empty_example :
  loc_params (OrgLocator (js "/mydao?p=") (js "mydao.aragonid.eth") (js "home")
                None [] (mkPreferences (Some (js "")) ∅))
  <> Some [].
Proof.
  exact (parsePath_params_never_empty Web3Utils.isAddress Web3Utils.isValidEnsName
           browserHistory (js "/mydao") (js "?p=") quietWorld _ quietWorld eq_refl).
Defined.

(** Params ["a b"] and the preferences path ["network"]. *)
Lemma parsePath_params_hold_preferences_example :
  exists L w',
    parse browserHistory (js "/mydao/voting")
      (js "?p=" ++ js "a%20b" ++ js "?preferences=/" ++ js "network") quietWorld
    = (Ok L, w')
    /\ loc_params L = Some (js "a b" ++ js "?preferences=/" ++ js "network")
    /\ loc_preferences L = Some (mkPreferences (Some (js "network")) ∅).
Proof.
  exact (parsePath_params_hold_preferences Web3Utils.isAddress
           Web3Utils.isValidEnsName (js "/mydao/voting") (js "mydao") (js "a b")
           (js "a%20b") (js "network") quietWorld
           eq_refl eq_refl eq_refl eq_refl eq_refl eq_refl eq_refl).
Defined.

(** The permissions screen of [mydao.aragonid.eth], and its home. *)
Lemma getAppPath_registered_roundtrip_example :
  (exists path pathname search L,
     build (mkAppPathArgs (Some (js "mydao.aragonid.eth")) (Some (js "permissions"))
              (Some (js "x y"))) = Ok path
     /\ locationOf path = (pathname, search)
     /\ parse browserHistory pathname search quietWorld = (Ok L, quietWorld)
     /\ mode L = APP_MODE_ORG
     /\ loc_dao L = Some (js "mydao.aragonid.eth")
     /\ loc_instanceId L = Some (js "permissions")
     /\ loc_params L = Some (js "x y"))
  /\ (exists path pathname search L,
        build (mkAppPathArgs (Some (js "mydao.aragonid.eth")) (Some (js "home")) None)
        = Ok path
        /\ locationOf path = (pathname, search)
        /\ parse browserHistory pathname search quietWorld = (Ok L, quietWorld)
        /\ mode L = APP_MODE_ORG
        /\ loc_dao L = Some (js "mydao.aragonid.eth")
        /\ loc_instanceId L = Some (js "home")
        /\ loc_params L = None).
Proof.
  split.
  - apply (getAppPath_registered_roundtrip Web3Utils.isAddress
             Web3Utils.isValidEnsName exampleStaticApps browserHistory
             (js "mydao") (js "mydao.aragonid.eth") (js "permissions")
             (mkStaticApp (js "/permissions")) (js "permissions"));
      try reflexivity.
    + right. repeat split; reflexivity.
    + repeat split; [discriminate|reflexivity..].
  - apply (getAppPath_registered_roundtrip Web3Utils.isAddress
             Web3Utils.isValidEnsName exampleStaticApps browserHistory
             (js "mydao") (js "mydao.aragonid.eth") (js "home")
             (mkStaticApp (js "/")) (js ""));
      try reflexivity.
    right. repeat split; reflexivity.
Defined.

(** [x.aragonid.eth.b.aragonid.eth] has the path of [x.aragonid.eth]. *)
Lemma getAppPath_ignores_after_domain_example :
  build (mkAppPathArgs (Some (js "x" ++ js ".aragonid.eth" ++ js ".b.aragonid.eth"))
           (Some (js "voting")) None)
  = build (mkAppPathArgs (Some (js "x" ++ js ".aragonid.eth")) (Some (js "voting")) None).
Proof.
  exact (getAppPath_ignores_after_domain exampleStaticApps (js "x")
           (js ".b.aragonid.eth") (Some (js "voting")) None eq_refl).
Defined.

(** The dao [aragonid.eth] itself. *)
Lemma getAppPath_domain_first_example :
  build (mkAppPathArgs (Some (js "aragonid.eth" ++ js "")) (Some (js "voting")) None)
  = Ok (js "//" ++ js "voting")
  /\ parse browserHistory (js "//" ++ js "voting") (js "") quietWorld
     = (Ok (StartLocator ((js "//" ++ js "voting") ++ js "") (Some (js ""))),
        quietWorld).
Proof.
  exact (getAppPath_domain_first Web3Utils.isAddress Web3Utils.isValidEnsName
           exampleStaticApps (js "") (js "voting") browserHistory (js "")
           quietWorld eq_refl).
Defined.

(** A search string with params only. *)
Lemma parsePreferences_absent_example :
  parsePreferences (js "?p=a%20b") = mkPreferences (Some []) ∅.
Proof.
  exact (PreferencesMore.parsePreferences_absent (js "?p=a%20b") eq_refl).
Defined.

(** The params before the preferences do not matter to them. *)
Lemma parsePreferences_after_marker_example :
  parsePreferences (js "?p=a%20b" ++ js "?preferences=/" ++ js "network&labels=xyz")
  = parsePreferences (js "?preferences=/" ++ js "network&labels=xyz").
Proof.
  exact (PreferencesMore.parsePreferences_after_marker (js "?p=a%20b")
           (js "network&labels=xyz") eq_refl).
Defined.

(** Two rows, one of them empty, in a wizard with another screen's data. *)
Definition exampleRows : list Entry :=
  [mkEntry (mkToken exampleAddress (Some (js "ANT"))) 0; EMPTY_TOKEN].

Definition exampleData : list (str * Val) :=
  [(js "tokens", VNumber 3)].

Lemma submit_then_reopen_example :
  exists props,
    VObject (setProp exampleData (js "redemptions")
               (VObject [(js "redeemableTokens",
                          VTokens [mkEntry (mkToken exampleAddress (Some (js "ANT"))) 0])]))
    = VObject props
    /\ initialTokens (js "redemptions") props
       = VTokens [mkEntry (mkToken exampleAddress (Some (js "ANT"))) 0].
Proof.
  exact (submit_then_reopen Web3Utils.isAddress (js "redemptions") exampleData
           (mkState exampleRows None) (mkState exampleRows None) _ eq_refl).
Defined.

Lemma handleSubmit_keeps_other_screens_example :
  exists props,
    VObject (setProp exampleData (js "redemptions")
               (VObject [(js "redeemableTokens",
                          VTokens [mkEntry (mkToken exampleAddress (Some (js "ANT"))) 0])]))
    = VObject props
    /\ getProp props (js "tokens") = VNumber 3
    /\ getProp props (js "redemptions")
       = VObject [(js "redeemableTokens",
                   VTokens [mkEntry (mkToken exampleAddress (Some (js "ANT"))) 0])].
Proof.
  refine (handleSubmit_keeps_other_screens Web3Utils.isAddress (js "redemptions")
            exampleData (mkState exampleRows None) (mkState exampleRows None) _
            (js "tokens") _ eq_refl _); discriminate.
Defined.

Lemma exampleAddressesEqual_sym a b :
  exampleAddressesEqual a b = exampleAddressesEqual b a.
Proof. unfold exampleAddressesEqual. apply bool_decide_ext. split; congruence. Qed.

Lemma exampleRows_distinct :
  distinctValid Web3Utils.isAddress exampleAddressesEqual exampleRows.
Proof.
  intros i j a b Hij Hi Hj Ha Hb.
  destruct i as [|[|i]], j as [|[|j]]; try done;
    cbn in Hi, Hj; simplify_eq; done.
Qed.

(** The example rows stay distinct under every handler. *)
Lemma handlers_keep_addresses_distinct_example :
  distinctValid Web3Utils.isAddress exampleAddressesEqual
    (redeemableTokens (handleTokenAdded (mkState exampleRows None)))
  /\ (forall index,
        distinctValid Web3Utils.isAddress exampleAddressesEqual
          (redeemableTokens (handleTokenRemoved index (mkState exampleRows None))))
  /\ (forall u,
        distinctValid Web3Utils.isAddress exampleAddressesEqual
          (redeemableTokens
             (handleTokenUpdated Web3Utils.isAddress exampleAddressesEqual u
                (mkState exampleRows None)))).
Proof.
  exact (handlers_keep_addresses_distinct Web3Utils.isAddress exampleAddressesEqual
           (mkState exampleRows None) exampleAddressesEqual_sym eq_refl
           exampleRows_distinct).
Defined.

End MoreExamples.
